(** * Ordered-position management of the task board

    A shallow embedding of [frontend/src/utils/positionCalculator.ts] and of
    the [handleDragEnd] callback of the project-tasks page, together with the
    properties of the ordering-key scheme.

    Conventions of the embedding.
    - A TypeScript [number] that holds a position, an index or a length is a
      [Z]: every value involved is an integer far below 2^53 in magnitude,
      where IEEE-754 addition, subtraction and halving followed by
      [Math.floor] are exact.  [Math.floor (x / 2)] is [x / 2] on [Z]
      (rounding towards minus infinity).  A position is a signed 32-bit
      key of the store; every theorem that computes with positions takes
      them inside [in_range], where the two arithmetics agree.
    - [null] and [undefined] are [None].
    - Array indexing [a[i]] is [js_index a i]: [undefined] outside
      [0 .. length - 1].
    - [Array.prototype.sort] is stable; with a comparator that is a total
      preorder its result is the stable insertion sort used below. *)

From stdpp Require Import base numbers option list sorting strings gmap.
From Stdlib Require Import ZArith Lia.

Local Open Scope Z_scope.

(** ** JavaScript primitives used by the code *)

(** [a[i]] for an integer [i]. *)
Definition js_index {A : Type} (a : list A) (i : Z) : option A :=
  if i <? 0 then None else a !! Z.to_nat i.

(** [a.length]. *)
Definition js_length {A : Type} (a : list A) : Z := Z.of_nat (length a).

(** Truthiness of a [string | undefined]: the empty string is falsy. *)
Definition truthy (s : option string) : bool :=
  match s with
  | Some EmptyString => false
  | Some _ => true
  | None => false
  end.

(** [s || d] on strings. *)
Definition or_else (s : option string) (d : string) : string :=
  match s with
  | Some v => if truthy s then v else d
  | None => d
  end.

(** [a.findIndex(p)]: index of the first match, [-1] when there is none. *)
Fixpoint findIndex_from {A : Type} (p : A -> bool) (a : list A) (i : Z) : Z :=
  match a with
  | [] => -1
  | x :: rest => if p x then i else findIndex_from p rest (i + 1)
  end.

Definition findIndex {A : Type} (p : A -> bool) (a : list A) : Z :=
  findIndex_from p a 0.

(** ** positionCalculator.ts *)

Definition MIN_POSITION : Z := -2147483648.
Definition MAX_POSITION : Z := 2147483647.
Definition DEFAULT_GAP : Z := 1000.

Module TaskPosition.
Record t : Type := mk { id : string; position : Z }.
End TaskPosition.

(** The objects returned by [rebalancePositions]. *)
Module PositionUpdate.
Record t : Type := mk { task_id : string; position : Z }.
End PositionUpdate.

Definition calculateNewPosition (prevPosition nextPosition : option Z) : Z :=
  match prevPosition, nextPosition with
  | None, Some next => next - DEFAULT_GAP
  | Some prev, None => prev + DEFAULT_GAP
  | Some prev, Some next =>
      let gap := next - prev in
      if gap <? 2 then prev + 1 else (prev + next) / 2
  | None, None => 0
  end.

(** The list [calculatePositionForIndex] reads its neighbours from. *)
Definition filteredTasks (tasks : list TaskPosition.t)
    (draggedTaskId : option string) : list TaskPosition.t :=
  match draggedTaskId with
  | Some d =>
      if truthy draggedTaskId
      then filter (fun t => TaskPosition.id t <> d) tasks
      else tasks
  | None => tasks
  end.

Definition calculatePositionForIndex (targetIndex : Z)
    (tasks : list TaskPosition.t) (draggedTaskId : option string) : Z :=
  let filtered := filteredTasks tasks draggedTaskId in
  let prevTask := js_index filtered (targetIndex - 1) in
  let nextTask := js_index filtered targetIndex in
  calculateNewPosition (TaskPosition.position <$> prevTask)
                       (TaskPosition.position <$> nextTask).

(** The comparator [(a, b) => a.position - b.position]. *)
Definition by_position (a b : TaskPosition.t) : Z :=
  TaskPosition.position a - TaskPosition.position b.

(** Stable sort under a comparator [cmp]: an element is placed in front of
    the first later element it does not compare greater than. *)
Fixpoint sort_insert {A : Type} (cmp : A -> A -> Z) (x : A) (sorted : list A)
    : list A :=
  match sorted with
  | [] => [x]
  | y :: rest =>
      if cmp x y <=? 0 then x :: y :: rest
      else y :: sort_insert cmp x rest
  end.

Fixpoint js_sort {A : Type} (cmp : A -> A -> Z) (a : list A) : list A :=
  match a with
  | [] => []
  | x :: rest => sort_insert cmp x (js_sort cmp rest)
  end.

(** [a] may stand in front of [b] in an array sorted under [cmp]. *)
Definition in_order {A : Type} (cmp : A -> A -> Z) (a b : A) : Prop :=
  cmp a b <= 0.

(** The [for] loop of [needsRebalancing] over the sorted copy: adjacent
    pairs are visited left to right, leaving at the first gap below 10. *)
Fixpoint gap_loop (sortedTasks : list TaskPosition.t) : bool :=
  match sortedTasks with
  | prev :: (cur :: _) as rest =>
      let gap := TaskPosition.position cur - TaskPosition.position prev in
      if gap <? 10 then true else gap_loop rest
  | _ => false
  end.

Definition needsRebalancing (tasks : list TaskPosition.t) : bool :=
  if js_length tasks <? 2 then false
  else
    let sortedTasks := js_sort by_position tasks in
    gap_loop sortedTasks.

Definition rebalancePositions (tasks : list TaskPosition.t)
    : list PositionUpdate.t :=
  if js_length tasks =? 0 then []
  else
    let sortedTasks := js_sort by_position tasks in
    let totalRange := MAX_POSITION - MIN_POSITION in
    let gap := totalRange / (js_length sortedTasks + 1) in
    imap (fun index task =>
            PositionUpdate.mk (TaskPosition.id task)
              (MIN_POSITION + gap * (Z.of_nat index + 1)))
         sortedTasks.

(** The spacing [rebalancePositions] uses for [count] items, and the
    position it gives to the item at [index]. *)
Definition even_gap (count : Z) : Z :=
  (MAX_POSITION - MIN_POSITION) / (count + 1).

Definition even_position (count : Z) (index : nat) : Z :=
  MIN_POSITION + even_gap count * (Z.of_nat index + 1).

(** Writing a rebalancing result back onto the items: each item keeps its
    identifier and takes the position computed for it. *)
Definition apply_updates (updates : list PositionUpdate.t)
    : list TaskPosition.t :=
  map (fun u => TaskPosition.mk (PositionUpdate.task_id u)
                                (PositionUpdate.position u)) updates.

Definition in_range (p : Z) : Prop := MIN_POSITION <= p <= MAX_POSITION.

Definition input_in_range (p : option Z) : Prop :=
  match p with
  | Some v => in_range v
  | None => True
  end.

(** Every position of a list of items, or of a column of cards, is a key
    of the store. *)
Definition positions_in_range (tasks : list TaskPosition.t) : Prop :=
  Forall (fun task => in_range (TaskPosition.position task)) tasks.

(** The slots at which an offset or a successor stays inside the key
    space: a head insertion needs [DEFAULT_GAP] of room below its
    neighbour, a tail insertion the same above, and an insertion between two
    items needs the lower one below [MAX_POSITION]. *)
Definition has_room (prev next : option Z) : Prop :=
  match prev, next with
  | None, Some n => MIN_POSITION + DEFAULT_GAP <= n
  | Some p, None => p <= MAX_POSITION - DEFAULT_GAP
  | Some p, Some _ => p < MAX_POSITION
  | None, None => True
  end.

(** ** The project-tasks page: columns and [handleDragEnd] *)

Definition TASK_STATUSES : list string :=
  ["todo"; "inprogress"; "inreview"; "done"; "cancelled"]%string.

(** The fields of a task that the board reads.  [created_at] is the value
    of [new Date(created_at).getTime()]. *)
Module Task.
Record t : Type := mk {
  id : string;
  title : string;
  description : option string;
  status : string;
  position : Z;
  parent_workspace_id : option string;
  created_at : Z
}.

(** A task seen through the [TaskPosition] interface. *)
Definition toTaskPosition (task : t) : TaskPosition.t :=
  TaskPosition.mk (id task) (position task).
End Task.

(** The comparator of the column sort: position first, newer first among
    equal positions. *)
Definition column_order (a b : Task.t) : Z :=
  if negb (Task.position a =? Task.position b)
  then Task.position a - Task.position b
  else Task.created_at b - Task.created_at a.

(** [String.prototype.toLowerCase] on the ASCII letters. *)
Definition lower_char (c : Ascii.ascii) : Ascii.ascii :=
  let n := Ascii.nat_of_ascii c in
  if ((65 <=? n) && (n <=? 90))%nat then Ascii.ascii_of_nat (n + 32) else c.

Fixpoint toLowerCase (s : string) : string :=
  match s with
  | EmptyString => EmptyString
  | String c rest => String (lower_char c) (toLowerCase rest)
  end.

Definition normalizeStatus (status : string) : string := toLowerCase status.

(** [kanbanColumns]: the tasks that match the search, grouped by status and
    sorted inside each column.  Every task carries one of the five statuses
    of [TASK_STATUSES]. *)
Definition kanbanColumns (matchesSearch : Task.t -> bool) (tasks : list Task.t)
    : gmap string (list Task.t) :=
  list_to_map
    (map (fun status =>
            (status,
             js_sort column_order
               (List.filter
                  (fun task =>
                     matchesSearch task
                     && String.eqb (normalizeStatus (Task.status task)) status)
                  tasks)))
         TASK_STATUSES).

(** The payload of [tasksApi.update]; its [priority], [image_ids] and
    [label_ids] fields are always sent as [null] and are left out. *)
Module UpdateTask.
Record t : Type := mk {
  title : string;
  description : option string;
  status : option string;
  position : option Z;
  parent_workspace_id : option string
}.
End UpdateTask.

(** What one run of the handler asks of the outside world: nothing, or one
    [tasksApi.update] call, followed on success by [triggerAutoReview] when
    [autoReview] is set. *)
Inductive Mutation : Type :=
  | NoOp
  | Update (taskId : string) (payload : UpdateTask.t) (autoReview : bool).

(** [active.data.current] and [over.data.current]. *)
Record DragData : Type := { parent : option string }.

Record Active : Type := { active_id : string; active_data : option DragData }.
Record Over : Type := { over_id : string; over_data : option DragData }.
Record DragEndEvent : Type := { active : Active; over : option Over }.

(** The position computed inside [handleDragEnd] for a drop on the task
    [overId] of the column [targetTasks]. *)
Definition dropPosition (targetTasks : list Task.t) (overId : string) : Z :=
  let overIndex := findIndex (fun t => String.eqb (Task.id t) overId) targetTasks in
  if overIndex =? 0 then
    default 0 (Task.position <$> js_index targetTasks 0) - 1000
  else if overIndex =? js_length targetTasks - 1 then
    default 0 (Task.position <$> js_index targetTasks (js_length targetTasks - 1))
    + 1000
  else
    let prevPos := default 0 (Task.position <$> js_index targetTasks (overIndex - 1)) in
    let nextPos :=
      default (prevPos + 2000) (Task.position <$> js_index targetTasks overIndex) in
    (prevPos + nextPos) / 2.

Definition handleDragEnd (tasksById : gmap string Task.t)
    (columns : gmap string (list Task.t)) (event : DragEndEvent) : Mutation :=
  match over event, active_data (active event) with
  | Some ov, Some activeData =>
      let draggedTaskId := active_id (active event) in
      let overId := over_id ov in
      match tasksById !! draggedTaskId with
      | None => NoOp
      | Some task =>
          let overTask := tasksById !! overId in
          let isStatusChange := bool_decide (overId ∈ TASK_STATUSES) in
          if isStatusChange then
            let newStatus := overId in
            if String.eqb (Task.status task) newStatus then NoOp
            else
              Update draggedTaskId
                (UpdateTask.mk (Task.title task) (Task.description task)
                   (Some newStatus) None (Task.parent_workspace_id task))
                (String.eqb newStatus "inreview")
          else
            match overTask with
            | Some overTask =>
                let sourceStatus := or_else (parent activeData) (Task.status task) in
                let targetStatus :=
                  or_else (over_data ov ≫= parent) (Task.status overTask) in
                let targetTasks := default [] (columns !! targetStatus) in
                let newPosition := dropPosition targetTasks overId in
                let statusChanged := negb (String.eqb sourceStatus targetStatus) in
                Update draggedTaskId
                  (UpdateTask.mk (Task.title task) (Task.description task)
                     (if statusChanged then Some targetStatus else None)
                     (Some newPosition) (Task.parent_workspace_id task))
                  (statusChanged && String.eqb targetStatus "inreview")
            | None => NoOp
            end
      end
  | _, _ => NoOp
  end.

(** ** Concrete boards used in the examples below *)

Definition card (id : string) (status : string) (position created : Z)
    : Task.t :=
  Task.mk id id None status position None created.

(** Three cards in one column, the first two sharing a position. *)
Definition tied_board : list Task.t :=
  [ card "A" "todo" 5 200; card "B" "todo" 5 100; card "C" "todo" 9 300 ]%string.

(** Three evenly spaced cards and a fourth one in another column. *)
Definition spaced_board : list Task.t :=
  [ card "A" "todo" 1000 1; card "B" "todo" 2000 2; card "C" "todo" 3000 3;
    card "D" "inprogress" 500 4 ]%string.

Definition index_by_id (tasks : list Task.t) : gmap string Task.t :=
  list_to_map (map (fun task => (Task.id task, task)) tasks).

Definition all_tasks (task : Task.t) : bool := true.

Definition drop_on (dragged from target onto : string) : DragEndEvent :=
  {| active := {| active_id := dragged;
                  active_data := Some {| parent := Some from |} |};
     over := Some {| over_id := target;
                     over_data := Some {| parent := Some onto |} |} |}.

Definition positions (updates : list PositionUpdate.t) : list Z :=
  map PositionUpdate.position updates.

Definition task_ids (updates : list PositionUpdate.t) : list string :=
  map PositionUpdate.task_id updates.

(** Some adjacent pair of [ps] is less than [threshold] apart. *)
Definition close_pair (threshold : Z) (ps : list Z) : Prop :=
  exists (i : nat) (p q : Z),
    ps !! i = Some p /\ ps !! S i = Some q /\ q - p < threshold.

(** ** Further parts of the project-tasks page *)

(** Dropping [count] items one after the other into the slot right behind
    the item at [prev], whose next neighbour is at first the item at
    [next] and afterwards the item dropped last. *)
Definition insert_repeatedly (prev next : Z) (count : nat) : Z :=
  Nat.iter count (fun n => calculateNewPosition (Some prev) (Some n)) next.

(** [visibleTasksByStatus]: the columns copied status by status. *)
Definition visibleTasksByStatus (columns : gmap string (list Task.t))
    : gmap string (list Task.t) :=
  foldl (fun map status =>
           match columns !! status with
           | Some tasks => <[status := tasks]> map
           | None => map
           end)
        ∅ TASK_STATUSES.

(** [hasVisibleTasks]: some column holds a card. *)
Definition hasVisibleTasks (visible : gmap string (list Task.t)) : bool :=
  existsb (fun items => 0 <? js_length items) (snd <$> map_to_list visible).

(** The loop [for (const status of statuses)] that opens the first card of
    the first column that has one and stops.  The result is the task
    handed to [handleViewTaskDetails], [None] when it is not called. *)
Fixpoint first_card (visible : gmap string (list Task.t))
    (statuses : list string) : option Task.t :=
  match statuses with
  | [] => None
  | status :: rest =>
      match visible !! status with
      | Some (task :: _) => Some task
      | _ => first_card visible rest
      end
  end.

Definition selectNextTask (selectedTask : option Task.t)
    (visible : gmap string (list Task.t)) : option Task.t :=
  match selectedTask with
  | Some selected =>
      let statusKey := normalizeStatus (Task.status selected) in
      let tasksInStatus := default [] (visible !! statusKey) in
      let currentIndex :=
        findIndex (fun task => String.eqb (Task.id task) (Task.id selected))
                  tasksInStatus in
      if (0 <=? currentIndex) && (currentIndex <? js_length tasksInStatus - 1)
      then js_index tasksInStatus (currentIndex + 1)
      else None
  | None => first_card visible TASK_STATUSES
  end.

Definition selectPreviousTask (selectedTask : option Task.t)
    (visible : gmap string (list Task.t)) : option Task.t :=
  match selectedTask with
  | Some selected =>
      let statusKey := normalizeStatus (Task.status selected) in
      let tasksInStatus := default [] (visible !! statusKey) in
      let currentIndex :=
        findIndex (fun task => String.eqb (Task.id task) (Task.id selected))
                  tasksInStatus in
      if 0 <? currentIndex
      then js_index tasksInStatus (currentIndex - 1)
      else None
  | None => first_card visible TASK_STATUSES
  end.

(** The index of the selected task's status in [TASK_STATUSES]. *)
Definition status_index (selected : Task.t) : Z :=
  let currentStatus := normalizeStatus (Task.status selected) in
  findIndex (fun status => String.eqb status currentStatus) TASK_STATUSES.

(** The statuses visited by [for (i = currentIndex + 1; i < length; i++)]
    and by [for (i = currentIndex - 1; i >= 0; i--)]. *)
Definition statuses_after (currentIndex : Z) : list string :=
  drop (Z.to_nat (currentIndex + 1)) TASK_STATUSES.

Definition statuses_before (currentIndex : Z) : list string :=
  reverse (take (Z.to_nat currentIndex) TASK_STATUSES).

Definition selectNextColumn (selectedTask : option Task.t)
    (visible : gmap string (list Task.t)) : option Task.t :=
  match selectedTask with
  | Some selected =>
      first_card visible (statuses_after (status_index selected))
  | None => first_card visible TASK_STATUSES
  end.

Definition selectPreviousColumn (selectedTask : option Task.t)
    (visible : gmap string (list Task.t)) : option Task.t :=
  match selectedTask with
  | Some selected =>
      first_card visible (statuses_before (status_index selected))
  | None => first_card visible TASK_STATUSES
  end.

(** The layout mode read from the [view] search parameter. *)
Definition parseMode (rawMode : option string) : option string :=
  match rawMode with
  | Some raw =>
      if String.eqb raw "preview" || String.eqb raw "diffs" then Some raw
      else None
  | None => None
  end.

Definition view_order : list (option string) :=
  [None; Some "preview"; Some "diffs"]%string.

(** [order.indexOf(mode)]. *)
Definition indexOf (mode : option string) (order : list (option string)) : Z :=
  findIndex (fun entry => bool_decide (entry = mode)) order.

Inductive Direction : Type := forward | backward.

(** [cycleView]: the value handed to [setMode]; the outer [None] stands for
    an [undefined] array read.  [%] is the truncating remainder. *)
Definition cycleView (mode : option string) (direction : Direction)
    : option (option string) :=
  let order := view_order in
  let idx := indexOf mode order in
  match direction with
  | forward => js_index order (Z.rem (idx + 1) (js_length order))
  | backward =>
      js_index order (Z.rem (idx - 1 + js_length order) (js_length order))
  end.

(** Several key presses in a row, each cycling from the mode the one
    before it has set. *)
Definition cycle_steps (mode : option string) (directions : list Direction)
    : option (option string) :=
  foldl (fun current direction =>
           match current with
           | Some mode => cycleView mode direction
           | None => None
           end)
        (Some mode) directions.

(** The fields of the auto-review settings that shape the prompt. *)
Record AutoReviewSettings : Type := {
  includePmReview : bool;
  includeCodeReview : bool;
  additionalPrompt : string
}.

Definition pm_review_request : string :=
  "Please review this task against the project specifications and requirements defined in the PM docs.".

Definition code_review_request : string :=
  "Also perform a code review checking for code quality, best practices, potential bugs, and security issues.".

Definition default_review_request : string :=
  "Please review the changes in this task.".

(** [promptParts] as built inside [triggerAutoReview]; [pm_docs] is
    [project?.pm_docs]. *)
Definition promptParts (settings : AutoReviewSettings)
    (pm_docs : option string) : list string :=
  let parts := [] in
  let parts :=
    if includePmReview settings && truthy pm_docs
    then parts ++ [pm_review_request] else parts in
  let parts :=
    if includeCodeReview settings
    then parts ++ [code_review_request] else parts in
  let parts :=
    if truthy (Some (additionalPrompt settings))
    then parts ++ [additionalPrompt settings] else parts in
  if js_length parts =? 0 then parts ++ [default_review_request] else parts.

(** [parts.join(sep)]. *)
Definition js_join (sep : string) (parts : list string) : string :=
  match parts with
  | [] => EmptyString
  | first :: rest =>
      fold_left (fun joined part => (joined ++ sep ++ part)%string) rest first
  end.

Definition blank_line : string :=
  String (Ascii.ascii_of_nat 10) (String (Ascii.ascii_of_nat 10) EmptyString).

(** The [additional_prompt] sent to [sessionsApi.startReview]. *)
Definition reviewPrompt (settings : AutoReviewSettings)
    (pm_docs : option string) : string :=
  js_join blank_line (promptParts settings pm_docs).

(** The fields of a workspace that [triggerAutoReview] reads; [created_at]
    is the value of [new Date(created_at).getTime()]. *)
Module Workspace.
Record t : Type := mk { id : string; created_at : Z }.
End Workspace.

(** The comparator [(a, b) => b.created_at - a.created_at]. *)
Definition newest_first (a b : Workspace.t) : Z :=
  Workspace.created_at b - Workspace.created_at a.

(** [latestWorkspace] of [triggerAutoReview]: [None] when the handler
    returns early because there is no workspace. *)
Definition latestWorkspace (workspaces : list Workspace.t)
    : option Workspace.t :=
  if js_length workspaces =? 0 then None
  else js_index (js_sort newest_first workspaces) 0.

(** The task list is well typed: every status is, up to letter case, one
    of [TASK_STATUSES].  ([kanbanColumns] pushes a task onto the column
    named by its status, which has to exist.) *)
Definition valid_statuses (tasks : list Task.t) : Prop :=
  Forall (fun task => normalizeStatus (Task.status task) ∈ TASK_STATUSES) tasks.

(** [allTasks] of the board component: [Object.values(columns).flat()].
    The columns object is built with its keys in the order of
    [TASK_STATUSES], which is the order [Object.values] follows. *)
Definition allTasks (columns : gmap string (list Task.t)) : list Task.t :=
  concat (omap (fun status => columns !! status) TASK_STATUSES).

(** The tasks kept by the column of [status]. *)
Definition in_column (matchesSearch : Task.t -> bool) (status : string)
    (task : Task.t) : bool :=
  matchesSearch task
  && String.eqb (normalizeStatus (Task.status task)) status.

Definition cards_in_range (tasks : list Task.t) : Prop :=
  Forall (fun task => in_range (Task.position task)) tasks.

(** The order inside a column: ascending position, newer first among
    equal positions. *)
Definition column_sorted (a b : Task.t) : Prop :=
  Task.position a < Task.position b
  \/ (Task.position a = Task.position b
      /\ Task.created_at b <= Task.created_at a).

(** * Properties *)

(** ** calculateNewPosition *)

Section CalculateNewPosition.

Lemma midpoint_between (a b : Z) :
  b - a >= 2 -> a < (a + b) / 2 < b.
Proof.
  intros Hgap. Z.to_euclidean_division_equations. lia.
Qed.

Lemma calculateNewPosition_middle (a b : Z) :
  b - a >= 2 -> calculateNewPosition (Some a) (Some b) = (a + b) / 2.
Proof.
  intros Hgap. unfold calculateNewPosition. cbn zeta.
  destruct (Z.ltb_spec (b - a) 2); [lia | reflexivity].
Qed.

Lemma calculateNewPosition_degraded (a b : Z) :
  b - a < 2 -> calculateNewPosition (Some a) (Some b) = a + 1.
Proof.
  intros Hgap. unfold calculateNewPosition. cbn zeta.
  destruct (Z.ltb_spec (b - a) 2); [reflexivity | lia].
Qed.

End CalculateNewPosition.

(** C1, as stated, fails: inserting in front of an item that sits at
    [MIN_POSITION] yields a position below the key space. *)
Lemma calculateNewPosition_below_range :
  input_in_range None /\ input_in_range (Some MIN_POSITION) /\
  calculateNewPosition None (Some MIN_POSITION) = -2147484648 /\
  ~ in_range (calculateNewPosition None (Some MIN_POSITION)).
Proof.
  unfold input_in_range, in_range, MIN_POSITION, MAX_POSITION.
  repeat split; try lia; try exact I.
  cbv. intros [H _]. apply H. reflexivity.
Qed.

(** C1 (amended): for neighbours inside the key space the new position is
    never further than [DEFAULT_GAP] outside it, and it is inside exactly
    when the slot has room: [next >= MIN_POSITION + 1000] at the head,
    [prev <= MAX_POSITION - 1000] at the tail, [prev < MAX_POSITION] between
    two items (which [prev < next] ensures), always in an empty column. *)
Theorem calculateNewPosition_range (prev next : option Z) :
  input_in_range prev -> input_in_range next ->
  MIN_POSITION - DEFAULT_GAP <= calculateNewPosition prev next
    <= MAX_POSITION + DEFAULT_GAP
  /\ (in_range (calculateNewPosition prev next) <-> has_room prev next)
  /\ (forall p n, prev = Some p -> next = Some n -> p < n ->
      in_range (calculateNewPosition prev next)).
Proof.
  intros Hprev Hnext.
  assert (Hcore :
    MIN_POSITION - DEFAULT_GAP <= calculateNewPosition prev next
      <= MAX_POSITION + DEFAULT_GAP
    /\ (in_range (calculateNewPosition prev next) <-> has_room prev next)).
  { destruct prev as [p|], next as [n|];
      unfold input_in_range, in_range in *; cbn [has_room calculateNewPosition];
      unfold MIN_POSITION, MAX_POSITION, DEFAULT_GAP in *; cbn zeta.
    - destruct (Z.ltb_spec (n - p) 2) as [Hsmall | Hwide].
      + lia.
      + pose proof (midpoint_between p n ltac:(lia)). lia.
    - lia.
    - lia.
    - lia. }
  destruct Hcore as [Hnear Hiff].
  split; [exact Hnear |]. split; [exact Hiff |].
  intros p n -> -> Hlt. apply Hiff. cbn [has_room].
  unfold input_in_range, in_range in Hnext. lia.
Qed.

Lemma calculateNewPosition_range_witness :
  in_range (calculateNewPosition (Some 2000) (Some 3000)).
Proof.
  apply (calculateNewPosition_range (Some 2000) (Some 3000)).
  - unfold input_in_range, in_range, MIN_POSITION, MAX_POSITION. lia.
  - unfold input_in_range, in_range, MIN_POSITION, MAX_POSITION. lia.
  - unfold has_room, MAX_POSITION. lia.
Defined.

(** C2: between two neighbours of the key space that are at least 2 apart
    the new position is the floor of their mean, strictly between them. *)
Theorem calculateNewPosition_midpoint (a b : Z) :
  in_range a -> in_range b ->
  a < b -> b - a >= 2 ->
  calculateNewPosition (Some a) (Some b) = (a + b) / 2
  /\ a < calculateNewPosition (Some a) (Some b) < b.
Proof.
  intros _ _ _ Hgap.
  rewrite calculateNewPosition_middle by exact Hgap.
  split; [reflexivity | apply midpoint_between; exact Hgap].
Qed.

Lemma calculateNewPosition_midpoint_witness :
  calculateNewPosition (Some 2000) (Some 3000) = (2000 + 3000) / 2
  /\ 2000 < calculateNewPosition (Some 2000) (Some 3000) < 3000.
Proof.
  apply (calculateNewPosition_midpoint 2000 3000);
    unfold in_range, MIN_POSITION, MAX_POSITION; lia.
Defined.

(** C3: between two neighbours less than 2 apart (so exactly one apart) the
    new position is the degraded [a + 1], still above [a]. *)
Theorem calculateNewPosition_adjacent (a b : Z) :
  a < b -> b - a < 2 ->
  b = a + 1
  /\ calculateNewPosition (Some a) (Some b) = a + 1
  /\ a < calculateNewPosition (Some a) (Some b).
Proof.
  intros Hlt Hgap.
  rewrite calculateNewPosition_degraded by exact Hgap.
  lia.
Qed.

Lemma calculateNewPosition_adjacent_witness :
  1001 = 1000 + 1
  /\ calculateNewPosition (Some 1000) (Some 1001) = 1000 + 1
  /\ 1000 < calculateNewPosition (Some 1000) (Some 1001).
Proof.
  apply (calculateNewPosition_adjacent 1000 1001); lia.
Defined.

(** C4: for every key [n] of the store head insertion is [n - 1000], for
    every key [p] tail insertion is [p + 1000], and an empty column gives
    [0]. *)
Theorem calculateNewPosition_ends :
  (forall n : Z, in_range n -> calculateNewPosition None (Some n) = n - 1000)
  /\ (forall p : Z, in_range p -> calculateNewPosition (Some p) None = p + 1000)
  /\ calculateNewPosition None None = 0.
Proof.
  repeat split.
Qed.

Lemma calculateNewPosition_ends_witness :
  calculateNewPosition None (Some 2000) = 2000 - 1000
  /\ calculateNewPosition (Some 2000) None = 2000 + 1000.
Proof.
  destruct calculateNewPosition_ends as (Hhead & Htail & _).
  split; [apply Hhead | apply Htail];
    unfold in_range, MIN_POSITION, MAX_POSITION; lia.
Defined.

(** ** Array indexing *)

Section JsIndex.
Context {A : Type}.
Implicit Types (a : list A) (i : Z) (n : nat).

Lemma js_index_negative a i : i < 0 -> js_index a i = None.
Proof.
  intros Hneg. unfold js_index.
  destruct (Z.ltb_spec i 0); [reflexivity | lia].
Qed.

Lemma js_index_nat a n : js_index a (Z.of_nat n) = a !! n.
Proof.
  unfold js_index.
  destruct (Z.ltb_spec (Z.of_nat n) 0); [lia |].
  now rewrite Nat2Z.id.
Qed.

Lemma js_index_beyond a i : js_length a <= i -> js_index a i = None.
Proof.
  intros Hge. unfold js_index, js_length in *.
  destruct (Z.ltb_spec i 0); [reflexivity |].
  apply lookup_ge_None. lia.
Qed.

Lemma js_index_first a : js_index a 0 = head a.
Proof. now destruct a. Qed.

Lemma js_index_last a : js_index a (js_length a - 1) = last a.
Proof.
  unfold js_length.
  destruct a as [| x rest]; [reflexivity |].
  replace (Z.of_nat (length (x :: rest)) - 1) with (Z.of_nat (length rest))
    by (cbn [length]; lia).
  rewrite js_index_nat, last_lookup. reflexivity.
Qed.

End JsIndex.

(** ** calculatePositionForIndex *)

(** C10, as stated, fails beyond the end of the list: there both
    neighbours are missing and the result is [0], the answer for an empty
    column, not the tail insertion behind the last item. *)
Lemma calculatePositionForIndex_beyond_end :
  js_length
    (filteredTasks
       [TaskPosition.mk "A" 1000; TaskPosition.mk "B" 2000;
        TaskPosition.mk "C" 3000] None) <= 4
  /\ calculatePositionForIndex 4
       [TaskPosition.mk "A" 1000; TaskPosition.mk "B" 2000;
        TaskPosition.mk "C" 3000] None = 0
  /\ calculateNewPosition (Some 3000) None = 4000
  /\ calculatePositionForIndex 4
       [TaskPosition.mk "A" 1000; TaskPosition.mk "B" 2000;
        TaskPosition.mk "C" 3000] None
     <> calculateNewPosition
          (TaskPosition.position
             <$> last (filteredTasks
                         [TaskPosition.mk "A" 1000; TaskPosition.mk "B" 2000;
                          TaskPosition.mk "C" 3000] None))
          None.
Proof.
  repeat split; try (vm_compute; reflexivity); vm_compute; discriminate.
Qed.

(** C10 (amended): [calculatePositionForIndex] returns an integer for every
    integer index, the neighbours being read as [undefined] outside the
    filtered list.  At index 0 there is no previous neighbour: a head
    insertion, [DEFAULT_GAP] below the first item.  At the index equal to
    the length there is no next neighbour: a tail insertion, [DEFAULT_GAP]
    above the last item.  At a negative index, at an index beyond the
    length and on an empty list both neighbours are missing and the result
    is [0].  At an index in between both neighbours exist. *)
Theorem calculatePositionForIndex_total (targetIndex : Z)
    (tasks : list TaskPosition.t) (draggedTaskId : option string) :
  let filtered := filteredTasks tasks draggedTaskId in
  let neighbour i := TaskPosition.position <$> js_index filtered i in
  calculatePositionForIndex targetIndex tasks draggedTaskId
  = calculateNewPosition (neighbour (targetIndex - 1)) (neighbour targetIndex)
  /\ (targetIndex <= 0 -> neighbour (targetIndex - 1) = None)
  /\ (js_length filtered <= targetIndex -> neighbour targetIndex = None)
  /\ (targetIndex = 0 ->
      calculatePositionForIndex targetIndex tasks draggedTaskId
      = calculateNewPosition None (TaskPosition.position <$> head filtered))
  /\ (targetIndex = js_length filtered ->
      calculatePositionForIndex targetIndex tasks draggedTaskId
      = calculateNewPosition (TaskPosition.position <$> last filtered) None)
  /\ (targetIndex < 0 \/ js_length filtered < targetIndex ->
      calculatePositionForIndex targetIndex tasks draggedTaskId = 0)
  /\ (filtered = [] ->
      calculatePositionForIndex targetIndex tasks draggedTaskId = 0)
  /\ (0 < targetIndex < js_length filtered ->
      exists prevTask nextTask : TaskPosition.t,
        js_index filtered (targetIndex - 1) = Some prevTask
        /\ js_index filtered targetIndex = Some nextTask
        /\ calculatePositionForIndex targetIndex tasks draggedTaskId
           = calculateNewPosition (Some (TaskPosition.position prevTask))
               (Some (TaskPosition.position nextTask)))
  /\ (positions_in_range tasks ->
      (forall first : TaskPosition.t,
         targetIndex = 0 -> head filtered = Some first ->
         calculatePositionForIndex targetIndex tasks draggedTaskId
         = TaskPosition.position first - DEFAULT_GAP)
      /\ (forall final : TaskPosition.t,
            targetIndex = js_length filtered -> last filtered = Some final ->
            calculatePositionForIndex targetIndex tasks draggedTaskId
            = TaskPosition.position final + DEFAULT_GAP)).
Proof.
  intros filtered neighbour.
  assert (Hbelow : forall i, i < 0 -> neighbour i = None).
  { intros i Hi. unfold neighbour. now rewrite js_index_negative. }
  assert (Habove : forall i, js_length filtered <= i -> neighbour i = None).
  { intros i Hi. unfold neighbour. now rewrite js_index_beyond. }
  assert (Hdef : calculatePositionForIndex targetIndex tasks draggedTaskId
                 = calculateNewPosition (neighbour (targetIndex - 1))
                                        (neighbour targetIndex))
    by reflexivity.
  assert (Hhead : targetIndex = 0 ->
            calculatePositionForIndex targetIndex tasks draggedTaskId
            = calculateNewPosition None
                (TaskPosition.position <$> head filtered)).
  { intros ->. rewrite Hdef, (Hbelow (0 - 1)) by lia.
    unfold neighbour. now rewrite js_index_first. }
  assert (Htail : targetIndex = js_length filtered ->
            calculatePositionForIndex targetIndex tasks draggedTaskId
            = calculateNewPosition
                (TaskPosition.position <$> last filtered) None).
  { intros ->. rewrite Hdef, (Habove (js_length filtered)) by lia.
    unfold neighbour. now rewrite js_index_last. }
  split; [exact Hdef |].
  split; [intros Hle; apply Hbelow; lia |].
  split; [exact (Habove targetIndex) |].
  split; [exact Hhead |]. split; [exact Htail |].
  split; [| split; [| split; [| intros _; split]]].
  - intros [Hneg | Hfar]; rewrite Hdef.
    + now rewrite !Hbelow by lia.
    + now rewrite !Habove by lia.
  - intros Hempty. rewrite Hdef. unfold neighbour. rewrite Hempty.
    unfold js_index.
    destruct (targetIndex - 1 <? 0), (targetIndex <? 0); reflexivity.
  - intros Hinside. rewrite Hdef. unfold neighbour.
    assert (Hsome : forall i, 0 <= i < js_length filtered ->
              exists task, js_index filtered i = Some task).
    { intros i [Hlo Hhi]. unfold js_index, js_length in *.
      destruct (Z.ltb_spec i 0); [lia |].
      apply lookup_lt_is_Some_2. lia. }
    destruct (Hsome (targetIndex - 1)) as [prevTask HprevTask]; [lia |].
    destruct (Hsome targetIndex) as [nextTask HnextTask]; [lia |].
    exists prevTask, nextTask. rewrite HprevTask, HnextTask. auto.
  - intros first Hzero Hfirst. rewrite (Hhead Hzero), Hfirst. reflexivity.
  - intros final Hend Hfinal. rewrite (Htail Hend), Hfinal. reflexivity.
Qed.

Lemma calculatePositionForIndex_total_witness :
  calculatePositionForIndex 2
    [TaskPosition.mk "A" 1000; TaskPosition.mk "B" 2000] (Some "C"%string)
  = TaskPosition.position (TaskPosition.mk "B" 2000) + DEFAULT_GAP.
Proof.
  pose proof (calculatePositionForIndex_total 2
    [TaskPosition.mk "A" 1000; TaskPosition.mk "B" 2000] (Some "C"%string))
    as (_ & _ & _ & _ & _ & _ & _ & _ & Hexact).
  destruct Hexact as [_ Htail].
  - repeat (apply Forall_cons; split);
      [unfold in_range, MIN_POSITION, MAX_POSITION; cbn; lia ..
      | apply Forall_nil; exact I].
  - apply Htail; reflexivity.
Defined.

(** ** The stable sort *)

Section JsSort.
Context {A : Type} (cmp : A -> A -> Z).

Lemma sort_insert_perm (x : A) (l : list A) : sort_insert cmp x l ≡ₚ x :: l.
Proof.
  induction l as [| y rest IH]; cbn [sort_insert]; [reflexivity |].
  destruct (cmp x y <=? 0); [reflexivity |].
  rewrite IH. apply Permutation_swap.
Qed.

Lemma js_sort_perm (l : list A) : js_sort cmp l ≡ₚ l.
Proof.
  induction l as [| x rest IH]; cbn [js_sort]; [reflexivity |].
  rewrite sort_insert_perm. now rewrite IH.
Qed.

Lemma js_sort_length (l : list A) : length (js_sort cmp l) = length l.
Proof. apply Permutation_length, js_sort_perm. Qed.

Lemma js_sort_js_length (l : list A) : js_length (js_sort cmp l) = js_length l.
Proof. unfold js_length. now rewrite js_sort_length. Qed.

Lemma sort_insert_head (x : A) (l : list A) :
  Sorted (in_order cmp) l -> HdRel (in_order cmp) x l ->
  sort_insert cmp x l = x :: l.
Proof.
  intros _ Hhd. destruct l as [| y rest]; [reflexivity |].
  cbn [sort_insert]. apply HdRel_inv in Hhd. unfold in_order in Hhd.
  destruct (Z.leb_spec (cmp x y) 0); [reflexivity | lia].
Qed.

(** Sorting an array that is already in order leaves every element where
    it is: the sort is stable. *)
Lemma js_sort_sorted_id (l : list A) :
  Sorted (in_order cmp) l -> js_sort cmp l = l.
Proof.
  induction 1 as [| x rest Hrest IH Hhd]; cbn [js_sort]; [reflexivity |].
  rewrite IH. now apply sort_insert_head.
Qed.

Hypothesis cmp_flip : forall a b, 0 < cmp a b -> cmp b a <= 0.

Lemma sort_insert_sorted (x : A) (l : list A) :
  Sorted (in_order cmp) l -> Sorted (in_order cmp) (sort_insert cmp x l).
Proof.
  induction 1 as [| y rest Hrest IH Hhd]; cbn [sort_insert].
  - repeat constructor.
  - destruct (Z.leb_spec (cmp x y) 0) as [Hle | Hgt].
    + constructor; [now constructor | now constructor].
    + constructor; [exact IH |].
      destruct rest as [| z rest']; cbn [sort_insert].
      * constructor. now apply cmp_flip.
      * apply HdRel_inv in Hhd.
        destruct (cmp x z <=? 0); constructor;
          [now apply cmp_flip | exact Hhd].
Qed.

Lemma js_sort_sorted (l : list A) : Sorted (in_order cmp) (js_sort cmp l).
Proof.
  induction l as [| x rest IH]; cbn [js_sort]; [constructor |].
  now apply sort_insert_sorted.
Qed.

End JsSort.

Lemma by_position_flip (a b : TaskPosition.t) :
  0 < by_position a b -> by_position b a <= 0.
Proof. unfold by_position. lia. Qed.

Lemma sorted_by_position (tasks : list TaskPosition.t) :
  Sorted Z.le (TaskPosition.position <$> js_sort by_position tasks).
Proof.
  apply (Sorted_fmap _ (in_order by_position) Z.le).
  - intros a b. unfold in_order, by_position. lia.
  - apply js_sort_sorted. exact by_position_flip.
Qed.

(** A list is sorted as soon as every element is related to its successor. *)
Lemma Sorted_adjacent {A : Type} (R : relation A) (l : list A) :
  (forall (i : nat) (a b : A), l !! i = Some a -> l !! S i = Some b -> R a b) ->
  Sorted R l.
Proof.
  induction l as [| x rest IH]; intros Hadj; [constructor |].
  constructor.
  - apply IH. intros i a b Ha Hb. exact (Hadj (S i) a b Ha Hb).
  - destruct rest as [| y rest']; constructor.
    exact (Hadj O x y eq_refl eq_refl).
Qed.

Lemma Sorted_adjacent_inv {A : Type} (R : relation A) (l : list A) :
  Sorted R l ->
  forall (i : nat) (a b : A), l !! i = Some a -> l !! S i = Some b -> R a b.
Proof.
  induction 1 as [| x rest Hrest IH Hhd]; intros i a b Ha Hb; [discriminate |].
  destruct i as [| i].
  - cbn in Ha, Hb. destruct rest as [| y rest']; [discriminate |].
    apply HdRel_inv in Hhd. cbn in Hb. congruence.
  - exact (IH i a b Ha Hb).
Qed.

(** ** rebalancePositions *)

Section Rebalance.
Implicit Types (tasks : list TaskPosition.t) (i : nat).

Lemma rebalancePositions_imap tasks :
  rebalancePositions tasks
  = imap (fun index task =>
            PositionUpdate.mk (TaskPosition.id task)
              (even_position (js_length tasks) index))
         (js_sort by_position tasks).
Proof.
  unfold rebalancePositions, even_position, even_gap.
  rewrite js_sort_js_length.
  destruct tasks as [| task rest]; [reflexivity |].
  destruct (Z.eqb_spec (js_length (task :: rest)) 0) as [Hzero |]; [| reflexivity].
  unfold js_length in Hzero. cbn [length] in Hzero. lia.
Qed.

Lemma rebalancePositions_length tasks :
  length (rebalancePositions tasks) = length tasks.
Proof. now rewrite rebalancePositions_imap, length_imap, js_sort_length. Qed.

Lemma rebalancePositions_lookup tasks i :
  rebalancePositions tasks !! i
  = (fun task => PositionUpdate.mk (TaskPosition.id task)
                   (even_position (js_length tasks) i))
    <$> js_sort by_position tasks !! i.
Proof. now rewrite rebalancePositions_imap, list_lookup_imap. Qed.

Lemma positions_lookup tasks i (p : Z) :
  positions (rebalancePositions tasks) !! i = Some p ->
  p = even_position (js_length tasks) i /\ (i < length tasks)%nat.
Proof.
  unfold positions. rewrite list_lookup_fmap, rebalancePositions_lookup.
  intros Hp.
  destruct (js_sort by_position tasks !! i) as [task |] eqn:Htask;
    [| discriminate].
  apply lookup_lt_Some in Htask. rewrite js_sort_length in Htask.
  cbn in Hp. split; [congruence | exact Htask].
Qed.

Lemma even_gap_nonneg (count : Z) : 0 <= count -> 0 <= even_gap count.
Proof.
  intros Hcount. unfold even_gap, MAX_POSITION, MIN_POSITION.
  apply Z.div_pos; lia.
Qed.

Lemma even_gap_positive (count : Z) :
  0 <= count < MAX_POSITION - MIN_POSITION -> 0 < even_gap count.
Proof.
  unfold even_gap, MAX_POSITION, MIN_POSITION. intros Hcount.
  apply Z.div_str_pos. lia.
Qed.

Lemma even_gap_zero (count : Z) :
  MAX_POSITION - MIN_POSITION <= count -> even_gap count = 0.
Proof.
  unfold even_gap, MAX_POSITION, MIN_POSITION. intros Hcount.
  apply Z.div_small. lia.
Qed.

(** All [count] positions fit below [MAX_POSITION]. *)
Lemma even_position_in_range (count : Z) i :
  Z.of_nat i < count -> in_range (even_position count i).
Proof.
  intros Hi. unfold in_range, even_position.
  assert (Hcount : 0 <= count) by lia.
  pose proof (even_gap_nonneg count Hcount) as Hgap.
  assert (Hfit : even_gap count * (count + 1) <= MAX_POSITION - MIN_POSITION).
  { unfold even_gap. rewrite Z.mul_comm. apply Z.mul_div_le. lia. }
  assert (Hstep : even_gap count * (Z.of_nat i + 1)
                  <= even_gap count * (count + 1))
    by (apply Z.mul_le_mono_nonneg_l; lia).
  assert (0 <= even_gap count * (Z.of_nat i + 1))
    by (apply Z.mul_nonneg_nonneg; lia).
  lia.
Qed.

Lemma even_position_step (count : Z) i :
  even_position count (S i) = even_position count i + even_gap count.
Proof. unfold even_position. lia. Qed.

(** The rebalanced items, written back, are already in order. *)
Lemma apply_updates_in_order tasks :
  Sorted (in_order by_position) (apply_updates (rebalancePositions tasks)).
Proof.
  apply Sorted_adjacent. intros i a b Ha Hb.
  unfold apply_updates in Ha, Hb.
  rewrite list_lookup_fmap, rebalancePositions_lookup in Ha, Hb.
  destruct (js_sort by_position tasks !! i) as [ta |]; [| discriminate].
  destruct (js_sort by_position tasks !! S i) as [tb |]; [| discriminate].
  cbn in Ha, Hb. injection Ha as <-. injection Hb as <-.
  unfold in_order, by_position. cbn.
  rewrite even_position_step.
  pose proof (even_gap_nonneg (js_length tasks)) as Hgap.
  unfold js_length in *. lia.
Qed.

Lemma apply_updates_length (updates : list PositionUpdate.t) :
  length (apply_updates updates) = length updates.
Proof. apply length_map. Qed.

(** Rebalancing a freshly rebalanced column changes nothing. *)
Lemma rebalancePositions_fixpoint tasks :
  rebalancePositions (apply_updates (rebalancePositions tasks))
  = rebalancePositions tasks.
Proof.
  apply list_eq. intros i.
  rewrite (rebalancePositions_lookup (apply_updates _)).
  rewrite js_sort_sorted_id by apply apply_updates_in_order.
  unfold js_length.
  rewrite apply_updates_length, rebalancePositions_length.
  unfold apply_updates. rewrite list_lookup_fmap.
  rewrite (rebalancePositions_lookup tasks).
  destruct (js_sort by_position tasks !! i) as [task |]; reflexivity.
Qed.

End Rebalance.

Lemma rebalancePositions_collapse (tasks : list TaskPosition.t) :
  MAX_POSITION - MIN_POSITION <= js_length tasks ->
  forall (i : nat) (p : Z),
    positions (rebalancePositions tasks) !! i = Some p -> p = MIN_POSITION.
Proof.
  intros Hlong i p Hp.
  apply positions_lookup in Hp as [-> _].
  unfold even_position. rewrite even_gap_zero by exact Hlong. lia.
Qed.

(** From 4294967295 items on the spacing would be 0. *)
Lemma collapsed_not_increasing (tasks : list TaskPosition.t) :
  MAX_POSITION - MIN_POSITION <= js_length tasks ->
  ~ Sorted Z.lt (positions (rebalancePositions tasks)).
Proof.
  intros Hwide Hsorted.
  assert (Hcount : (2 <= length (positions (rebalancePositions tasks)))%nat).
  { unfold positions. rewrite length_map, rebalancePositions_length.
    unfold js_length, MAX_POSITION, MIN_POSITION in Hwide. lia. }
  destruct (lookup_lt_is_Some_2 (positions (rebalancePositions tasks)) 0)
    as [a Ha]; [lia |].
  destruct (lookup_lt_is_Some_2 (positions (rebalancePositions tasks)) 1)
    as [b Hb]; [lia |].
  pose proof (Sorted_adjacent_inv Z.lt _ Hsorted 0%nat a b Ha Hb) as Hlt.
  rewrite (rebalancePositions_collapse _ Hwide _ _ Ha) in Hlt.
  rewrite (rebalancePositions_collapse _ Hwide _ _ Hb) in Hlt.
  lia.
Qed.

(** C5: [rebalancePositions] returns one entry per item; the entry at
    index [i] carries the identifier of the [i]-th item in ascending order
    of current position and the position
    [MIN_POSITION + floor((MAX_POSITION - MIN_POSITION) / (count + 1)) * (i + 1)];
    all new positions lie in the key space; an empty input gives an empty
    result; and the new positions are strictly increasing for every column
    of fewer than 4294967295 items, which is every column there can be. *)
Theorem rebalancePositions_spec (tasks : list TaskPosition.t) :
  let sortedTasks := js_sort by_position tasks in
  let count := js_length tasks in
  sortedTasks ≡ₚ tasks
  /\ Sorted Z.le (TaskPosition.position <$> sortedTasks)
  /\ length (rebalancePositions tasks) = length tasks
  /\ (forall (i : nat) (task : TaskPosition.t),
        sortedTasks !! i = Some task ->
        rebalancePositions tasks !! i
        = Some (PositionUpdate.mk (TaskPosition.id task)
                  (MIN_POSITION
                   + (MAX_POSITION - MIN_POSITION) / (count + 1)
                     * (Z.of_nat i + 1))))
  /\ Forall in_range (positions (rebalancePositions tasks))
  /\ rebalancePositions [] = []
  /\ (count < MAX_POSITION - MIN_POSITION ->
      Sorted Z.lt (positions (rebalancePositions tasks))).
Proof.
  intros sortedTasks count.
  split; [apply js_sort_perm |].
  split; [apply sorted_by_position |].
  split; [apply rebalancePositions_length |].
  split.
  { intros i task Htask. rewrite rebalancePositions_lookup.
    fold sortedTasks. rewrite Htask. reflexivity. }
  split.
  { apply Forall_lookup. intros i p Hp.
    apply positions_lookup in Hp as [-> Hi].
    apply even_position_in_range. unfold js_length. lia. }
  split; [reflexivity |].
  intros Hcount. apply Sorted_adjacent. intros i a b Ha Hb.
  apply positions_lookup in Ha as [-> _].
  apply positions_lookup in Hb as [-> _].
  rewrite even_position_step.
  assert (0 < even_gap count)
    by (apply even_gap_positive; unfold count, js_length in *; lia).
  fold count. lia.
Qed.

Lemma rebalancePositions_spec_witness :
  Sorted Z.lt
    (positions
       (rebalancePositions
          [TaskPosition.mk "B" 1001; TaskPosition.mk "A" 1000])).
Proof.
  apply (rebalancePositions_spec
           [TaskPosition.mk "B" 1001; TaskPosition.mk "A" 1000]).
  vm_compute. reflexivity.
Defined.

(** C7: rebalancing the rebalanced items again, with their new positions
    written back in the order returned, returns them in that same order
    (and with the same positions). *)
Theorem rebalancePositions_idempotent (tasks : list TaskPosition.t) :
  task_ids (rebalancePositions (apply_updates (rebalancePositions tasks)))
  = task_ids (rebalancePositions tasks)
  /\ rebalancePositions (apply_updates (rebalancePositions tasks))
     = rebalancePositions tasks.
Proof.
  rewrite rebalancePositions_fixpoint. split; reflexivity.
Qed.

(** ** needsRebalancing *)

Lemma close_pair_cons (threshold p q : Z) (ps : list Z) :
  close_pair threshold (p :: q :: ps)
  <-> q - p < threshold \/ close_pair threshold (q :: ps).
Proof.
  split.
  - intros (i & a & b & Ha & Hb & Hgap).
    destruct i as [| i].
    + cbn in Ha, Hb. left. congruence.
    + right. exists i, a, b. auto.
  - intros [Hgap | (i & a & b & Ha & Hb & Hgap)].
    + exists 0%nat, p, q. auto.
    + exists (S i), a, b. auto.
Qed.

Lemma close_pair_short (threshold : Z) (ps : list Z) :
  (length ps < 2)%nat -> ~ close_pair threshold ps.
Proof.
  intros Hshort (i & a & b & _ & Hb & _).
  apply lookup_lt_Some in Hb. lia.
Qed.

Lemma gap_loop_close_pair (sortedTasks : list TaskPosition.t) :
  gap_loop sortedTasks = true
  <-> close_pair 10 (TaskPosition.position <$> sortedTasks).
Proof.
  induction sortedTasks as [| prev rest IH].
  - split; [discriminate |].
    intros Hpair. now apply close_pair_short in Hpair; [| cbn; lia].
  - destruct rest as [| cur rest'].
    + split; [discriminate |].
      intros Hpair. now apply close_pair_short in Hpair; [| cbn; lia].
    + change (TaskPosition.position <$> prev :: cur :: rest')
        with (TaskPosition.position prev
              :: (TaskPosition.position <$> cur :: rest')).
      change (TaskPosition.position <$> cur :: rest')
        with (TaskPosition.position cur
              :: (TaskPosition.position <$> rest')) at 1.
      rewrite close_pair_cons.
      change (TaskPosition.position cur :: (TaskPosition.position <$> rest'))
        with (TaskPosition.position <$> cur :: rest').
      rewrite <- IH. cbn [gap_loop].
      destruct (Z.ltb_spec
                  (TaskPosition.position cur - TaskPosition.position prev) 10)
        as [Hsmall | Hwide].
      * split; auto.
      * split; [auto |]. intros [Hsmall | Hrest]; [lia | exact Hrest].
Qed.

Lemma needsRebalancing_loop (tasks : list TaskPosition.t) :
  needsRebalancing tasks = gap_loop (js_sort by_position tasks).
Proof.
  unfold needsRebalancing.
  destruct (Z.ltb_spec (js_length tasks) 2) as [Hshort | Hlong];
    [| reflexivity].
  pose proof (js_sort_length by_position tasks) as Hlen.
  unfold js_length in Hshort.
  destruct (js_sort by_position tasks) as [| a [| b rest]];
    [reflexivity | reflexivity |].
  cbn [length] in Hlen. lia.
Qed.

(** C6: [needsRebalancing] answers [true] exactly when the positions, put in
    ascending order, have two neighbours less than 10 apart; with fewer than
    two tasks it answers [false]. *)
Theorem needsRebalancing_iff (tasks : list TaskPosition.t) :
  (forall ps : list Z,
     ps ≡ₚ (TaskPosition.position <$> tasks) -> Sorted Z.le ps ->
     (needsRebalancing tasks = true <-> close_pair 10 ps))
  /\ (needsRebalancing tasks = true
      <-> close_pair 10 (TaskPosition.position <$> js_sort by_position tasks))
  /\ ((length tasks < 2)%nat -> needsRebalancing tasks = false).
Proof.
  assert (Hsorted :
    needsRebalancing tasks = true
    <-> close_pair 10 (TaskPosition.position <$> js_sort by_position tasks)).
  { rewrite needsRebalancing_loop. apply gap_loop_close_pair. }
  split; [| split; [exact Hsorted |]].
  - intros ps Hperm Hps.
    assert (Heq : ps = TaskPosition.position <$> js_sort by_position tasks).
    { apply (Sorted_unique Z.le); [exact Hps | apply sorted_by_position |].
      rewrite Hperm. now rewrite js_sort_perm. }
    rewrite Heq. exact Hsorted.
  - intros Hshort.
    destruct (needsRebalancing tasks); [| reflexivity].
    exfalso.
    apply (close_pair_short 10
             (TaskPosition.position <$> js_sort by_position tasks)).
    + now rewrite length_fmap, js_sort_length.
    + apply Hsorted. reflexivity.
Qed.

Lemma needsRebalancing_iff_witness :
  needsRebalancing
    [TaskPosition.mk "B" 1005; TaskPosition.mk "C" 3000;
     TaskPosition.mk "A" 1000] = true
  <-> close_pair 10 [1000; 1005; 3000].
Proof.
  destruct (needsRebalancing_iff
              [TaskPosition.mk "B" 1005; TaskPosition.mk "C" 3000;
               TaskPosition.mk "A" 1000]) as [Hany _].
  apply Hany.
  - cbn. etrans; [apply Permutation_swap |].
    apply Permutation_skip, Permutation_swap.
  - repeat constructor; lia.
Defined.

(** ** The drag handler *)

Section ArrayLemmas.
Context {A : Type}.
Implicit Types (a : list A) (i : Z).

Lemma js_index_fmap {B : Type} (f : A -> B) a i :
  js_index (f <$> a) i = f <$> js_index a i.
Proof.
  unfold js_index. destruct (i <? 0); [reflexivity |].
  apply list_lookup_fmap.
Qed.

Lemma js_index_inside a i :
  0 <= i < js_length a -> exists x, js_index a i = Some x.
Proof.
  intros [Hlo Hhi]. unfold js_index, js_length in *.
  destruct (Z.ltb_spec i 0); [lia |].
  apply lookup_lt_is_Some_2. lia.
Qed.

Lemma findIndex_from_bounds (p : A -> bool) a i :
  findIndex_from p a i = -1
  \/ i <= findIndex_from p a i < i + js_length a.
Proof.
  revert i. induction a as [| x rest IH]; intros i; cbn [findIndex_from].
  - left. reflexivity.
  - unfold js_length. cbn [length].
    destruct (p x).
    + right. lia.
    + destruct (IH (i + 1)) as [-> | Hin]; [left; reflexivity |].
      right. unfold js_length in Hin. lia.
Qed.

Lemma findIndex_found (p : A -> bool) a :
  0 <= findIndex p a -> findIndex p a < js_length a.
Proof.
  unfold findIndex. intros Hfound.
  destruct (findIndex_from_bounds p a 0) as [Hnone | Hin]; lia.
Qed.

End ArrayLemmas.

Lemma filteredTasks_none (tasks : list TaskPosition.t) :
  filteredTasks tasks None = tasks.
Proof. reflexivity. Qed.

(** C9, as stated, fails: a card dropped on the last card of another column
    is placed after it by the handler and before it by
    [calculatePositionForIndex]; a card dropped on its lower neighbour is
    left in front of it by the handler, since the dragged card is not
    removed from the list. *)
Lemma dropPosition_differs_from_calculator :
  kanbanColumns all_tasks spaced_board !! "todo"%string
  = Some [ card "A" "todo" 1000 1; card "B" "todo" 2000 2;
           card "C" "todo" 3000 3 ]%string
  /\ findIndex (fun t => String.eqb (Task.id t) "C")
       (default [] (kanbanColumns all_tasks spaced_board !! "todo"%string)) = 2
  /\ dropPosition
       (default [] (kanbanColumns all_tasks spaced_board !! "todo"%string))
       "C" = 4000
  /\ calculatePositionForIndex 2
       (Task.toTaskPosition
          <$> default [] (kanbanColumns all_tasks spaced_board !! "todo"%string))
       (Some "D"%string) = 2500
  /\ dropPosition
       (default [] (kanbanColumns all_tasks spaced_board !! "todo"%string))
       "B" = 1500
  /\ calculatePositionForIndex 1
       (Task.toTaskPosition
          <$> default [] (kanbanColumns all_tasks spaced_board !! "todo"%string))
       (Some "A"%string) = 2500
  /\ dropPosition
       (default [] (kanbanColumns all_tasks spaced_board !! "todo"%string))
       "C"
     <> calculatePositionForIndex 2
          (Task.toTaskPosition
             <$> default []
                   (kanbanColumns all_tasks spaced_board !! "todo"%string))
          (Some "D"%string).
Proof.
  repeat split; try (vm_compute; reflexivity).
  vm_compute. discriminate.
Qed.

(** C9 (amended): for a drop on the task found at index [overIndex] of the
    target column, the handler computes its position from that column as it
    stands, the dragged task not removed.  On the first task it is the head
    insertion of the Position Calculator, on the last task (when it is not
    also the first) its tail insertion, and on a task in between, whose
    distance to its predecessor is at least 2, its midpoint: the handler
    agrees with [calculatePositionForIndex], called without a dragged
    identifier, at [overIndex], or at [overIndex + 1] for the last task. *)
Theorem dropPosition_calculator (targetTasks : list Task.t) (overId : string) :
  let overIndex :=
    findIndex (fun t => String.eqb (Task.id t) overId) targetTasks in
  let last := js_length targetTasks - 1 in
  0 <= overIndex ->
  (forall prevTask nextTask : Task.t,
     overIndex < last ->
     js_index targetTasks (overIndex - 1) = Some prevTask ->
     js_index targetTasks overIndex = Some nextTask ->
     Task.position nextTask - Task.position prevTask >= 2) ->
  dropPosition targetTasks overId
  = calculatePositionForIndex
      (if (0 <? overIndex) && (overIndex =? last)
       then overIndex + 1 else overIndex)
      (Task.toTaskPosition <$> targetTasks) None.
Proof.
  intros overIndex last Hfound Hgap.
  pose proof (findIndex_found _ targetTasks Hfound) as Hlen.
  fold overIndex in Hlen.
  unfold dropPosition, calculatePositionForIndex.
  fold overIndex. fold last. cbn zeta.
  rewrite filteredTasks_none, !js_index_fmap.
  destruct (Z.eqb_spec overIndex 0) as [Hzero | Hnonzero].
  - rewrite Hzero. cbn [Z.ltb Z.compare andb].
    destruct (js_index_inside targetTasks 0) as [first Hfirst]; [lia |].
    rewrite Hfirst, js_index_negative by lia. reflexivity.
  - destruct (Z.ltb_spec 0 overIndex) as [_ | Hneg]; [| lia].
    destruct (Z.eqb_spec overIndex last) as [Hlast | Hmiddle]; cbn [andb].
    + destruct (js_index_inside targetTasks last) as [final Hfinal];
        [unfold last in *; lia |].
      replace (overIndex + 1 - 1) with last by lia.
      rewrite Hfinal, js_index_beyond by (unfold last in *; lia).
      reflexivity.
    + destruct (js_index_inside targetTasks (overIndex - 1))
        as [prevTask HprevTask]; [lia |].
      destruct (js_index_inside targetTasks overIndex)
        as [nextTask HnextTask]; [lia |].
      rewrite HprevTask, HnextTask. cbn [fmap option_fmap option_map default].
      unfold Task.toTaskPosition. cbn [TaskPosition.position].
      rewrite calculateNewPosition_middle; [reflexivity |].
      apply Hgap; [unfold last in *; lia | assumption | assumption].
Qed.

Lemma dropPosition_calculator_witness :
  dropPosition
    [ card "A" "todo" 1000 1; card "B" "todo" 2000 2;
      card "C" "todo" 3000 3 ]%string "B"
  = calculatePositionForIndex 1
      (Task.toTaskPosition
         <$> [ card "A" "todo" 1000 1; card "B" "todo" 2000 2;
               card "C" "todo" 3000 3 ]%string) None.
Proof.
  apply (dropPosition_calculator
           [ card "A" "todo" 1000 1; card "B" "todo" 2000 2;
             card "C" "todo" 3000 3 ]%string "B").
  - vm_compute. discriminate.
  - intros prevTask nextTask _ HprevTask HnextTask.
    vm_compute in HprevTask, HnextTask.
    injection HprevTask as <-. injection HnextTask as <-.
    vm_compute. discriminate.
Defined.

(** C8, as stated, fails: card B, dropped on itself in its own column where
    the card above it has the same position, gets its own position computed
    again, and the handler still sends an update carrying it. *)
Lemma drop_on_own_slot_sends_update :
  kanbanColumns all_tasks tied_board !! "todo"%string
  = Some [ card "A" "todo" 5 200; card "B" "todo" 5 100;
           card "C" "todo" 9 300 ]%string
  /\ index_by_id tied_board !! "B"%string = Some (card "B" "todo" 5 100)
  /\ dropPosition
       (default [] (kanbanColumns all_tasks tied_board !! "todo"%string)) "B"
     = Task.position (card "B" "todo" 5 100)
  /\ handleDragEnd (index_by_id tied_board)
       (kanbanColumns all_tasks tied_board) (drop_on "B" "todo" "B" "todo")
     = Update "B" (UpdateTask.mk "B" None None (Some 5) None) false
  /\ handleDragEnd (index_by_id tied_board)
       (kanbanColumns all_tasks tied_board) (drop_on "B" "todo" "B" "todo")
     <> NoOp.
Proof.
  repeat split; try (vm_compute; reflexivity).
  vm_compute. discriminate.
Qed.

(** C8 (amended): a drop on a task always makes the handler send an update
    with the computed position; when source and target column are the same
    the update leaves the status unchanged, and it is sent even when the
    computed position is the item's current position.  The handler sends
    nothing only for an event without target or drag data, for an unknown
    dragged task, for a target that is neither a status nor a known task,
    and for a drop on the column of the status the task already has. *)
Theorem handleDragEnd_mutation (tasksById : gmap string Task.t)
    (columns : gmap string (list Task.t)) (event : DragEndEvent) :
  (forall (ov : Over) (activeData : DragData) (task overTask : Task.t),
     over event = Some ov ->
     active_data (active event) = Some activeData ->
     tasksById !! active_id (active event) = Some task ->
     over_id ov ∉ TASK_STATUSES ->
     tasksById !! over_id ov = Some overTask ->
     or_else (parent activeData) (Task.status task)
     = or_else (over_data ov ≫= parent) (Task.status overTask) ->
     handleDragEnd tasksById columns event
     = Update (active_id (active event))
         (UpdateTask.mk (Task.title task) (Task.description task) None
            (Some (dropPosition
                     (default []
                        (columns
                           !! or_else (over_data ov ≫= parent)
                                (Task.status overTask)))
                     (over_id ov)))
            (Task.parent_workspace_id task))
         false)
  /\ (handleDragEnd tasksById columns event = NoOp <->
      over event = None
      \/ active_data (active event) = None
      \/ tasksById !! active_id (active event) = None
      \/ (exists (ov : Over) (task : Task.t),
            over event = Some ov
            /\ tasksById !! active_id (active event) = Some task
            /\ (over_id ov ∈ TASK_STATUSES)
            /\ Task.status task = over_id ov)
      \/ (exists ov : Over,
            over event = Some ov
            /\ (over_id ov ∉ TASK_STATUSES)
            /\ tasksById !! over_id ov = None)).
Proof.
  split.
  - intros ov activeData task overTask Hover Hdata Htask Hslot HoverTask Hsame.
    unfold handleDragEnd.
    rewrite Hover, Hdata, Htask, HoverTask.
    rewrite bool_decide_eq_false_2 by exact Hslot.
    rewrite Hsame, String.eqb_refl. reflexivity.
  - unfold handleDragEnd.
    destruct (over event) as [ov |]; [| split; auto].
    destruct (active_data (active event)) as [activeData |]; [| split; auto].
    destruct (tasksById !! active_id (active event)) as [task |];
      [| split; auto].
    destruct (decide (over_id ov ∈ TASK_STATUSES)) as [Hstatus | Hslot].
    + rewrite bool_decide_eq_true_2 by exact Hstatus.
      destruct (String.eqb_spec (Task.status task) (over_id ov)) as [Heq | Hne].
      * split; [intros _ | reflexivity].
        do 3 right. left. exists ov, task. auto.
      * split; [discriminate |].
        intros [Hnone | [Hnone | [Hnone | [Hcol | Hunknown]]]];
          try discriminate.
        -- destruct Hcol as (ov' & task' & Hov & Htask & _ & Hsame).
           injection Hov as <-. injection Htask as <-. contradiction.
        -- destruct Hunknown as (ov' & Hov & Hslot & _).
           injection Hov as <-. contradiction.
    + rewrite bool_decide_eq_false_2 by exact Hslot.
      destruct (tasksById !! over_id ov) as [overTask |] eqn:HoverTask.
      * split; [discriminate |].
        intros [Hnone | [Hnone | [Hnone | [Hcol | Hunknown]]]];
          try discriminate.
        -- destruct Hcol as (ov' & task' & Hov & _ & Hstatus & _).
           injection Hov as <-. contradiction.
        -- destruct Hunknown as (ov' & Hov & _ & Hmissing).
           injection Hov as <-. congruence.
      * split; [intros _ | reflexivity].
        do 4 right. exists ov. auto.
Qed.

Lemma handleDragEnd_mutation_witness :
  handleDragEnd (index_by_id tied_board)
    (kanbanColumns all_tasks tied_board) (drop_on "C" "todo" "B" "todo")
  = Update "C" (UpdateTask.mk "C" None None (Some 5) None) false.
Proof.
  destruct (handleDragEnd_mutation (index_by_id tied_board)
              (kanbanColumns all_tasks tied_board)
              (drop_on "C" "todo" "B" "todo")) as [Hdrop _].
  rewrite (Hdrop {| over_id := "B"; over_data := Some {| parent := Some "todo"%string |} |}
             {| parent := Some "todo"%string |}
             (card "C" "todo" 9 300) (card "B" "todo" 5 100));
    try reflexivity.
  vm_compute. intros Hin.
  repeat (apply elem_of_cons in Hin as [Hin | Hin]; [discriminate |]).
  now apply elem_of_nil in Hin.
Defined.

(** * Further properties *)

(** ** The calculator between two neighbours *)

(** With both neighbours present, each a key of the store, the new
    position is always above the previous one, and it is below the next one
    exactly when the two are at least 2 apart: in every other case it lands
    on or beyond the next item. *)
Theorem calculateNewPosition_below_next_iff (prev next : Z) :
  in_range prev -> in_range next ->
  prev < calculateNewPosition (Some prev) (Some next)
  /\ (calculateNewPosition (Some prev) (Some next) < next <-> next - prev >= 2).
Proof.
  intros _ _.
  destruct (Z_lt_ge_dec (next - prev) 2) as [Hsmall | Hwide].
  - rewrite calculateNewPosition_degraded by exact Hsmall. lia.
  - rewrite calculateNewPosition_middle by exact Hwide.
    pose proof (midpoint_between prev next Hwide). lia.
Qed.

Lemma halve_floor (g : Z) (k : nat) :
  0 <= g -> g / 2 ^ Z.of_nat k / 2 = g / 2 ^ Z.of_nat (S k).
Proof.
  intros Hg.
  rewrite Nat2Z.inj_succ, Z.pow_succ_r by lia.
  rewrite Z.div_div by lia. now rewrite (Z.mul_comm 2).
Qed.

(** Between two keys of the store, repeated drops into the slot behind the
    lower item halve the free gap each time until it is 1: after [count]
    drops the item dropped last sits
    [max 1 (floor (gap / 2^count))] above the fixed item, and once
    [2^count] exceeds the first gap every further drop lands on
    [prev + 1]. *)
Theorem insert_repeatedly_gap (prev next : Z) (count : nat) :
  in_range prev -> in_range next ->
  prev < next ->
  insert_repeatedly prev next count
  = prev + Z.max 1 ((next - prev) / 2 ^ Z.of_nat count)
  /\ (next - prev < 2 ^ Z.of_nat count ->
      insert_repeatedly prev next count = prev + 1).
Proof.
  intros _ _ Hlt.
  assert (Hgap : insert_repeatedly prev next count
                 = prev + Z.max 1 ((next - prev) / 2 ^ Z.of_nat count)).
  { induction count as [| count IH].
    - cbn. rewrite Z.div_1_r. lia.
    - unfold insert_repeatedly in *. rewrite Nat.iter_succ, IH.
      rewrite <- halve_floor by lia.
      set (g := (next - prev) / 2 ^ Z.of_nat count).
      assert (0 <= g) by (apply Z.div_pos; lia).
      destruct (Z_lt_ge_dec g 2) as [Hsmall | Hwide].
      + rewrite calculateNewPosition_degraded by lia.
        assert (g / 2 = 0) by (apply Z.div_small; lia). lia.
      + rewrite calculateNewPosition_middle by lia.
        assert (1 <= g / 2) by (apply Z.div_le_lower_bound; lia).
        replace (prev + (prev + Z.max 1 g)) with (g + prev * 2) by lia.
        rewrite Z.div_add by lia. lia. }
  split; [exact Hgap |].
  intros Hfull. rewrite Hgap.
  rewrite Z.div_small by lia. reflexivity.
Qed.

Lemma insert_repeatedly_gap_witness :
  insert_repeatedly 1000 2000 10 = 1000 + 1.
Proof.
  apply (insert_repeatedly_gap 1000 2000 10);
    [unfold in_range, MIN_POSITION, MAX_POSITION; lia ..
    | vm_compute; reflexivity].
Defined.

(** ** Placement by index *)

Lemma sorted_le_lookup (ps : list Z) :
  Sorted Z.le ps ->
  forall (j k : nat) (a b : Z),
    (j <= k)%nat -> ps !! j = Some a -> ps !! k = Some b -> a <= b.
Proof.
  intros Hsorted j k a b Hjk. revert b.
  induction Hjk as [| k Hjk IH]; intros b Ha Hb.
  - assert (a = b) by congruence. lia.
  - destruct (lookup_lt_is_Some_2 ps k) as [c Hc].
    { apply lookup_lt_Some in Hb. lia. }
    pose proof (IH c Ha Hc).
    pose proof (Sorted_adjacent_inv Z.le ps Hsorted k c b Hc Hb). lia.
Qed.

(** In a list of items with keys of the store, in ascending order of
    position, the position computed for a slot lies strictly above every
    item in front of the slot and strictly
    below every item from the slot on, provided the two neighbours of the
    slot (when both exist) are at least 2 apart: the item lands at
    [targetIndex]. *)
Theorem calculatePositionForIndex_placement (targetIndex : Z)
    (tasks : list TaskPosition.t) (draggedTaskId : option string) :
  let filtered := filteredTasks tasks draggedTaskId in
  positions_in_range tasks ->
  Sorted Z.le (TaskPosition.position <$> filtered) ->
  0 <= targetIndex <= js_length filtered ->
  (forall prevTask nextTask : TaskPosition.t,
     js_index filtered (targetIndex - 1) = Some prevTask ->
     js_index filtered targetIndex = Some nextTask ->
     TaskPosition.position nextTask - TaskPosition.position prevTask >= 2) ->
  forall (j : nat) (task : TaskPosition.t),
    filtered !! j = Some task ->
    (Z.of_nat j < targetIndex ->
     TaskPosition.position task
     < calculatePositionForIndex targetIndex tasks draggedTaskId)
    /\ (targetIndex <= Z.of_nat j ->
        calculatePositionForIndex targetIndex tasks draggedTaskId
        < TaskPosition.position task).
Proof.
  intros filtered _ Hsorted Hindex Hgap j task Htask.
  unfold calculatePositionForIndex. fold filtered. cbn zeta.
  assert (Hmono : forall (a b : nat) (ta tb : TaskPosition.t),
            (a <= b)%nat -> filtered !! a = Some ta -> filtered !! b = Some tb ->
            TaskPosition.position ta <= TaskPosition.position tb).
  { intros a b ta tb Hab Hta Htb.
    apply (sorted_le_lookup _ Hsorted a b); [exact Hab | |];
      rewrite list_lookup_fmap; [now rewrite Hta | now rewrite Htb]. }
  assert (Hprev : forall prevTask,
            js_index filtered (targetIndex - 1) = Some prevTask ->
            Z.of_nat j < targetIndex ->
            TaskPosition.position task <= TaskPosition.position prevTask).
  { intros prevTask HprevTask Hj.
    replace (targetIndex - 1) with (Z.of_nat (Z.to_nat (targetIndex - 1)))
      in HprevTask by lia.
    rewrite js_index_nat in HprevTask.
    apply (Hmono j (Z.to_nat (targetIndex - 1))); [lia | assumption..]. }
  assert (Hnext : forall nextTask,
            js_index filtered targetIndex = Some nextTask ->
            targetIndex <= Z.of_nat j ->
            TaskPosition.position nextTask <= TaskPosition.position task).
  { intros nextTask HnextTask Hj.
    replace targetIndex with (Z.of_nat (Z.to_nat targetIndex))
      in HnextTask by lia.
    rewrite js_index_nat in HnextTask.
    apply (Hmono (Z.to_nat targetIndex) j); [lia | assumption..]. }
  pose proof (lookup_lt_Some _ _ _ Htask) as Hj.
  destruct (js_index filtered (targetIndex - 1)) as [prevTask |] eqn:HprevTask;
    destruct (js_index filtered targetIndex) as [nextTask |] eqn:HnextTask;
    cbn [fmap option_fmap option_map calculateNewPosition].
  - specialize (Hgap prevTask nextTask eq_refl eq_refl).
    destruct (Z.ltb_spec
                (TaskPosition.position nextTask - TaskPosition.position prevTask)
                2) as [Hsmall | _]; [lia |].
    pose proof (midpoint_between _ _ Hgap).
    split; intros Hside.
    + pose proof (Hprev prevTask eq_refl Hside). lia.
    + pose proof (Hnext nextTask eq_refl Hside). lia.
  - split; intros Hside.
    + pose proof (Hprev prevTask eq_refl Hside). unfold DEFAULT_GAP. lia.
    + destruct (js_index_inside filtered targetIndex) as [x Hx];
        [unfold js_length; lia | congruence].
  - split; intros Hside.
    + destruct (js_index_inside filtered (targetIndex - 1)) as [x Hx];
        [unfold js_length in *; lia | congruence].
    + pose proof (Hnext nextTask eq_refl Hside). unfold DEFAULT_GAP. lia.
  - split; intros Hside.
    + destruct (js_index_inside filtered (targetIndex - 1)) as [x Hx];
        [unfold js_length in *; lia | congruence].
    + destruct (js_index_inside filtered targetIndex) as [x Hx];
        [unfold js_length; lia | congruence].
Qed.

Lemma calculatePositionForIndex_placement_witness :
  TaskPosition.position (TaskPosition.mk "B" 2000)
  < calculatePositionForIndex 2
      [TaskPosition.mk "A" 1000; TaskPosition.mk "B" 2000;
       TaskPosition.mk "D" 2500; TaskPosition.mk "C" 3000]
      (Some "D"%string).
Proof.
  apply (calculatePositionForIndex_placement 2
           [TaskPosition.mk "A" 1000; TaskPosition.mk "B" 2000;
            TaskPosition.mk "D" 2500; TaskPosition.mk "C" 3000]
           (Some "D"%string)) with (j := 1%nat).
  - repeat (apply Forall_cons; split);
      [unfold in_range, MIN_POSITION, MAX_POSITION; cbn; lia ..
      | apply Forall_nil; exact I].
  - vm_compute. repeat constructor; discriminate.
  - vm_compute. split; discriminate.
  - intros prevTask nextTask HprevTask HnextTask.
    vm_compute in HprevTask, HnextTask.
    injection HprevTask as <-. injection HnextTask as <-.
    vm_compute. discriminate.
  - reflexivity.
  - lia.
Defined.

(** ** Rebalancing and its check *)

(** [needsRebalancing] does not depend on the order in which the tasks are
    handed over. *)
Theorem needsRebalancing_permutation (tasks tasks' : list TaskPosition.t) :
  tasks ≡ₚ tasks' -> needsRebalancing tasks = needsRebalancing tasks'.
Proof.
  intros Hperm.
  assert (Hsame : TaskPosition.position <$> js_sort by_position tasks
                  = TaskPosition.position <$> js_sort by_position tasks').
  { apply (Sorted_unique Z.le); [apply sorted_by_position.. |].
    now rewrite !js_sort_perm, Hperm. }
  pose proof (gap_loop_close_pair (js_sort by_position tasks)) as Hleft.
  pose proof (gap_loop_close_pair (js_sort by_position tasks')) as Hright.
  rewrite Hsame in Hleft. rewrite !needsRebalancing_loop.
  destruct (gap_loop (js_sort by_position tasks)),
           (gap_loop (js_sort by_position tasks')); try reflexivity.
  - symmetry. apply Hright, Hleft. reflexivity.
  - apply Hleft, Hright. reflexivity.
Qed.

Lemma needsRebalancing_permutation_witness :
  needsRebalancing [TaskPosition.mk "A" 1000; TaskPosition.mk "B" 1005]
  = needsRebalancing [TaskPosition.mk "B" 1005; TaskPosition.mk "A" 1000].
Proof.
  apply (needsRebalancing_permutation
           [TaskPosition.mk "A" 1000; TaskPosition.mk "B" 1005]
           [TaskPosition.mk "B" 1005; TaskPosition.mk "A" 1000]).
  apply Permutation_swap.
Defined.

Lemma positions_apply_updates (updates : list PositionUpdate.t) :
  TaskPosition.position <$> apply_updates updates = positions updates.
Proof.
  unfold apply_updates, positions.
  induction updates as [| u rest IH]; [reflexivity |].
  cbn. f_equal. exact IH.
Qed.

(** A column of at most 429496728 tasks is healthy after a rebalance:
    once the new positions are written back, every gap is at least 10 and
    [needsRebalancing] answers [false]. *)
Theorem rebalanced_column_is_healthy (tasks : list TaskPosition.t) :
  js_length tasks <= 429496728 ->
  needsRebalancing (apply_updates (rebalancePositions tasks)) = false.
Proof.
  intros Hcount.
  rewrite needsRebalancing_loop.
  rewrite js_sort_sorted_id by apply apply_updates_in_order.
  destruct (gap_loop (apply_updates (rebalancePositions tasks))) eqn:Hloop;
    [| reflexivity].
  apply gap_loop_close_pair in Hloop.
  rewrite positions_apply_updates in Hloop.
  destruct Hloop as (i & p & q & Hp & Hq & Hclose).
  apply positions_lookup in Hp as [-> _].
  apply positions_lookup in Hq as [-> _].
  rewrite even_position_step in Hclose.
  assert (10 <= even_gap (js_length tasks)).
  { unfold even_gap, MAX_POSITION, MIN_POSITION.
    apply Z.div_le_lower_bound; unfold js_length in *; lia. }
  lia.
Qed.

Lemma rebalanced_column_is_healthy_witness :
  needsRebalancing
    (apply_updates
       (rebalancePositions
          [TaskPosition.mk "A" 1000; TaskPosition.mk "B" 1001]))
  = false.
Proof.
  apply (rebalanced_column_is_healthy
           [TaskPosition.mk "A" 1000; TaskPosition.mk "B" 1001]).
  vm_compute. discriminate.
Defined.

Lemma task_ids_rebalanced (tasks : list TaskPosition.t) :
  task_ids (rebalancePositions tasks)
  = TaskPosition.id <$> js_sort by_position tasks.
Proof.
  apply list_eq. intros i. unfold task_ids.
  rewrite !list_lookup_fmap, rebalancePositions_lookup.
  destruct (js_sort by_position tasks !! i); reflexivity.
Qed.

(** Rebalancing neither drops nor duplicates a task: the identifiers in its
    result are those of the input, each as often as it occurs there. *)
Theorem rebalancePositions_keeps_ids (tasks : list TaskPosition.t) :
  task_ids (rebalancePositions tasks) ≡ₚ (TaskPosition.id <$> tasks).
Proof.
  rewrite task_ids_rebalanced. now rewrite js_sort_perm.
Qed.

Lemma sorted_positions_in_order (tasks : list TaskPosition.t) :
  Sorted Z.le (TaskPosition.position <$> tasks) ->
  Sorted (in_order by_position) tasks.
Proof.
  intros Hsorted. apply Sorted_adjacent. intros i a b Ha Hb.
  unfold in_order, by_position.
  pose proof (Sorted_adjacent_inv Z.le _ Hsorted i
                (TaskPosition.position a) (TaskPosition.position b)) as Hle.
  rewrite !list_lookup_fmap, Ha, Hb in Hle.
  specialize (Hle eq_refl eq_refl). lia.
Qed.

(** Rebalancing a list that is already in ascending order of position
    (ties included) keeps the tasks in exactly the order given. *)
Theorem rebalancePositions_keeps_order (tasks : list TaskPosition.t) :
  Sorted Z.le (TaskPosition.position <$> tasks) ->
  task_ids (rebalancePositions tasks) = (TaskPosition.id <$> tasks).
Proof.
  intros Hsorted. rewrite task_ids_rebalanced.
  rewrite js_sort_sorted_id by now apply sorted_positions_in_order.
  reflexivity.
Qed.

Lemma rebalancePositions_keeps_order_witness :
  task_ids
    (rebalancePositions
       [TaskPosition.mk "B" 5; TaskPosition.mk "A" 5; TaskPosition.mk "C" 9])
  = ["B"; "A"; "C"]%string.
Proof.
  apply (rebalancePositions_keeps_order
           [TaskPosition.mk "B" 5; TaskPosition.mk "A" 5;
            TaskPosition.mk "C" 9]).
  repeat constructor; cbn; lia.
Defined.

(** ** The position computed by the drag handler *)

Lemma findIndex_from_absent {A : Type} (p : A -> bool) (a : list A) (i : Z) :
  (forall x, x ∈ a -> p x = false) -> findIndex_from p a i = -1.
Proof.
  revert i. induction a as [| x rest IH]; intros i Hnone; [reflexivity |].
  cbn [findIndex_from]. rewrite (Hnone x) by apply list_elem_of_here.
  apply IH. intros y Hy. apply Hnone. now apply list_elem_of_further.
Qed.

(** When the task dropped on is not in the target column (a card hidden by
    the search, or a column that does not exist), the handler sends the
    position 1000 whatever the column holds. *)
Theorem dropPosition_absent (targetTasks : list Task.t) (overId : string) :
  (forall task, task ∈ targetTasks -> Task.id task <> overId) ->
  dropPosition targetTasks overId = 1000.
Proof.
  intros Habsent. unfold dropPosition.
  assert (Hindex : findIndex (fun t => String.eqb (Task.id t) overId)
                     targetTasks = -1).
  { apply findIndex_from_absent. intros task Htask.
    apply String.eqb_neq. now apply Habsent. }
  rewrite Hindex. cbn zeta. change (-1 =? 0) with false. cbn beta iota.
  destruct (Z.eqb_spec (-1) (js_length targetTasks - 1)) as [Hempty | _].
  - rewrite <- Hempty, js_index_negative by lia. reflexivity.
  - rewrite !js_index_negative by lia. reflexivity.
Qed.

Lemma dropPosition_absent_witness :
  dropPosition [card "A" "todo" 70 1; card "B" "todo" 90 2]%string "C" = 1000.
Proof.
  apply (dropPosition_absent
           [card "A" "todo" 70 1; card "B" "todo" 90 2]%string "C").
  intros task Htask.
  repeat (apply elem_of_cons in Htask as [-> | Htask]; [discriminate |]).
  now apply elem_of_nil in Htask.
Defined.

Lemma task_positions_monotone (targetTasks : list Task.t) :
  Sorted Z.le (Task.position <$> targetTasks) ->
  forall (a b : nat) (ta tb : Task.t),
    (a <= b)%nat -> targetTasks !! a = Some ta -> targetTasks !! b = Some tb ->
    Task.position ta <= Task.position tb.
Proof.
  intros Hsorted a b ta tb Hab Hta Htb.
  apply (sorted_le_lookup _ Hsorted a b); [exact Hab | |];
    rewrite list_lookup_fmap; [now rewrite Hta | now rewrite Htb].
Qed.

Lemma js_index_lookup {A : Type} (a : list A) (i : Z) (x : A) :
  js_index a i = Some x -> 0 <= i /\ a !! Z.to_nat i = Some x.
Proof.
  unfold js_index. destruct (Z.ltb_spec i 0); [discriminate |].
  intros Hx. split; [lia | exact Hx].
Qed.

(** In a column of cards with keys of the store, in ascending order of
    position, a drop on the first card gets a position below every card of
    the column; a drop on the last card
    (when it is not the first) a position above every card; and a drop on a
    card in between a position from the predecessor's up to that card's
    own: not below any card in front of the slot and not above any card
    from the slot on. *)
Theorem dropPosition_placement (targetTasks : list Task.t) (overId : string) :
  let overIndex :=
    findIndex (fun t => String.eqb (Task.id t) overId) targetTasks in
  let last := js_length targetTasks - 1 in
  cards_in_range targetTasks ->
  Sorted Z.le (Task.position <$> targetTasks) ->
  0 <= overIndex ->
  forall (j : nat) (task : Task.t),
    targetTasks !! j = Some task ->
    (overIndex = 0 -> dropPosition targetTasks overId < Task.position task)
    /\ (0 < overIndex -> overIndex = last ->
        Task.position task < dropPosition targetTasks overId)
    /\ (0 < overIndex < last ->
        (Z.of_nat j < overIndex ->
         Task.position task <= dropPosition targetTasks overId)
        /\ (overIndex <= Z.of_nat j ->
            dropPosition targetTasks overId <= Task.position task)).
Proof.
  intros overIndex last _ Hsorted Hfound j task Htask.
  pose proof (findIndex_found _ targetTasks Hfound) as Hlen.
  fold overIndex in Hlen.
  pose proof (task_positions_monotone _ Hsorted) as Hmono.
  pose proof (lookup_lt_Some _ _ _ Htask) as Hj.
  unfold dropPosition. fold overIndex. fold last. cbn zeta.
  split; [| split].
  - intros Hzero. rewrite Hzero. cbn [Z.eqb].
    destruct (js_index_inside targetTasks 0) as [first Hfirst]; [lia |].
    rewrite Hfirst. cbn [fmap option_fmap option_map default from_option id].
    apply js_index_lookup in Hfirst as [_ Hfirst].
    pose proof (Hmono _ _ _ _ (Nat.le_0_l j) Hfirst Htask). lia.
  - intros Hpos Hlast.
    destruct (Z.eqb_spec overIndex 0); [lia |].
    destruct (Z.eqb_spec overIndex last); [| lia].
    destruct (js_index_inside targetTasks last) as [final Hfinal];
      [unfold last in *; lia |].
    rewrite Hfinal. cbn [fmap option_fmap option_map default from_option id].
    apply js_index_lookup in Hfinal as [_ Hfinal].
    assert (Hle : (j <= Z.to_nat last)%nat)
      by (unfold last, js_length in *; lia).
    pose proof (Hmono _ _ _ _ Hle Htask Hfinal). lia.
  - intros Hmiddle.
    destruct (Z.eqb_spec overIndex 0); [lia |].
    destruct (Z.eqb_spec overIndex last); [lia |].
    destruct (js_index_inside targetTasks (overIndex - 1))
      as [prevTask HprevTask]; [lia |].
    destruct (js_index_inside targetTasks overIndex)
      as [nextTask HnextTask]; [lia |].
    rewrite HprevTask, HnextTask. cbn [fmap option_fmap option_map default from_option id].
    apply js_index_lookup in HprevTask as [_ HprevTask].
    apply js_index_lookup in HnextTask as [_ HnextTask].
    assert (Hstep : (Z.to_nat (overIndex - 1) <= Z.to_nat overIndex)%nat) by lia.
    pose proof (Hmono _ _ _ _ Hstep HprevTask HnextTask) as Hneighbours.
    assert (Hmid : Task.position prevTask
                   <= (Task.position prevTask + Task.position nextTask) / 2
                   <= Task.position nextTask)
      by (Z.to_euclidean_division_equations; lia).
    split; intros Hside.
    + assert (Hle : (j <= Z.to_nat (overIndex - 1))%nat) by lia.
      pose proof (Hmono _ _ _ _ Hle Htask HprevTask). lia.
    + assert (Hle : (Z.to_nat overIndex <= j)%nat) by lia.
      pose proof (Hmono _ _ _ _ Hle HnextTask Htask). lia.
Qed.

Lemma dropPosition_placement_witness :
  Task.position (card "A" "todo" 1000 1)
  <= dropPosition
       [ card "A" "todo" 1000 1; card "B" "todo" 2000 2;
         card "C" "todo" 3000 3 ]%string "B".
Proof.
  apply (dropPosition_placement
           [ card "A" "todo" 1000 1; card "B" "todo" 2000 2;
             card "C" "todo" 3000 3 ]%string "B") with (j := 0%nat).
  - repeat (apply Forall_cons; split);
      [unfold in_range, MIN_POSITION, MAX_POSITION; cbn; lia ..
      | apply Forall_nil; exact I].
  - vm_compute. repeat constructor; discriminate.
  - vm_compute. discriminate.
  - reflexivity.
  - vm_compute. split; reflexivity.
  - vm_compute. reflexivity.
Defined.

(** In a column of cards with keys of the store, a drop on a card between
    the first and the last one, whose predecessor is at most 1 below it, is
    given the predecessor's own position: the
    handler has no fallback for a slot without room and creates a tie.
    With more room the position is free. *)
Theorem dropPosition_reuses_position (targetTasks : list Task.t)
    (overId : string) (prevTask overTask : Task.t) :
  let overIndex :=
    findIndex (fun t => String.eqb (Task.id t) overId) targetTasks in
  cards_in_range targetTasks ->
  0 < overIndex < js_length targetTasks - 1 ->
  js_index targetTasks (overIndex - 1) = Some prevTask ->
  js_index targetTasks overIndex = Some overTask ->
  Task.position prevTask <= Task.position overTask ->
  (dropPosition targetTasks overId = Task.position prevTask
   <-> Task.position overTask - Task.position prevTask <= 1)
  /\ (Task.position prevTask < dropPosition targetTasks overId
      < Task.position overTask
      <-> Task.position overTask - Task.position prevTask >= 2).
Proof.
  intros overIndex _ Hmiddle HprevTask HoverTask Hle.
  unfold dropPosition. fold overIndex. cbn zeta.
  destruct (Z.eqb_spec overIndex 0); [lia |].
  destruct (Z.eqb_spec overIndex (js_length targetTasks - 1)); [lia |].
  rewrite HprevTask, HoverTask.
  cbn [fmap option_fmap option_map default from_option id].
  split; split; intros H; Z.to_euclidean_division_equations; lia.
Qed.

Lemma dropPosition_reuses_position_witness :
  dropPosition
    [ card "A" "todo" 10 1; card "B" "todo" 11 2; card "C" "todo" 50 3 ]%string
    "B"
  = Task.position (card "A" "todo" 10 1).
Proof.
  apply (dropPosition_reuses_position
           [ card "A" "todo" 10 1; card "B" "todo" 11 2;
             card "C" "todo" 50 3 ]%string
           "B" (card "A" "todo" 10 1) (card "B" "todo" 11 2)).
  - repeat (apply Forall_cons; split);
      [unfold in_range, MIN_POSITION, MAX_POSITION; cbn; lia ..
      | apply Forall_nil; exact I].
  - vm_compute. split; reflexivity.
  - reflexivity.
  - reflexivity.
  - vm_compute. discriminate.
  - vm_compute. discriminate.
Defined.

(** ** What the drag handler sends *)

(** Every update the handler sends is addressed to the dragged task and
    repeats that task's own title, description and parent workspace; a drop
    on a status column sends no position and a drop on a card always sends
    one, so no update is empty; and the automatic review is asked for only
    together with a change of status to [inreview]. *)
Theorem handleDragEnd_update (tasksById : gmap string Task.t)
    (columns : gmap string (list Task.t)) (event : DragEndEvent)
    (taskId : string) (payload : UpdateTask.t) (autoReview : bool) :
  handleDragEnd tasksById columns event = Update taskId payload autoReview ->
  taskId = active_id (active event)
  /\ (exists task : Task.t,
        tasksById !! taskId = Some task
        /\ UpdateTask.title payload = Task.title task
        /\ UpdateTask.description payload = Task.description task
        /\ UpdateTask.parent_workspace_id payload
           = Task.parent_workspace_id task)
  /\ (exists ov : Over,
        over event = Some ov
        /\ (UpdateTask.position payload = None
            <-> over_id ov ∈ TASK_STATUSES)
        /\ (over_id ov ∈ TASK_STATUSES ->
            UpdateTask.status payload = Some (over_id ov)))
  /\ (UpdateTask.status payload = None ->
      UpdateTask.position payload <> None)
  /\ (autoReview = true ->
      UpdateTask.status payload = Some "inreview"%string).
Proof.
  unfold handleDragEnd.
  destruct (over event) as [ov |]; [| discriminate].
  destruct (active_data (active event)) as [activeData |]; [| discriminate].
  destruct (tasksById !! active_id (active event)) as [task |] eqn:Htask;
    [| discriminate].
  destruct (decide (over_id ov ∈ TASK_STATUSES)) as [Hstatus | Hslot].
  - rewrite bool_decide_eq_true_2 by exact Hstatus.
    destruct (String.eqb (Task.status task) (over_id ov)); [discriminate |].
    intros [= <- <- <-]. cbn.
    split; [reflexivity |].
    split; [exists task; rewrite Htask; auto |].
    split; [exists ov; split; [reflexivity | split; [tauto | auto]] |].
    split; [discriminate |].
    intros Hreview. apply String.eqb_eq in Hreview. now rewrite Hreview.
  - rewrite bool_decide_eq_false_2 by exact Hslot.
    destruct (tasksById !! over_id ov) as [overTask |]; [| discriminate].
    intros [= <- <- <-]. cbn.
    split; [reflexivity |].
    split; [exists task; rewrite Htask; auto |].
    split.
    { exists ov. split; [reflexivity |].
      split; [split; [discriminate | contradiction] | contradiction]. }
    split; [discriminate |].
    intros Hreview. apply andb_true_iff in Hreview as [Hchanged Hreview].
    rewrite Hchanged. apply String.eqb_eq in Hreview. now rewrite Hreview.
Qed.

Lemma handleDragEnd_update_witness :
  "D"%string
  = active_id (active (drop_on "D" "inprogress" "inreview" "inreview")).
Proof.
  apply (handleDragEnd_update (index_by_id spaced_board)
           (kanbanColumns all_tasks spaced_board)
           (drop_on "D" "inprogress" "inreview" "inreview")
           "D"
           (UpdateTask.mk "D" None (Some "inreview"%string) None None) true).
  vm_compute. reflexivity.
Defined.

(** ** The columns of the board *)

Lemma list_to_map_keyed {V : Type} (f : string -> V) (keys : list string)
    (key : string) :
  (list_to_map (map (fun k => (k, f k)) keys) : gmap string V) !! key
  = if decide (key ∈ keys) then Some (f key) else None.
Proof.
  induction keys as [| k rest IH]; cbn [map list_to_map foldr].
  - rewrite lookup_empty. destruct (decide (key ∈ [])) as [Hin |];
      [now apply elem_of_nil in Hin | reflexivity].
  - cbn. rewrite lookup_insert. destruct (decide (k = key)) as [-> | Hne].
    + rewrite decide_True by apply list_elem_of_here. reflexivity.
    + rewrite IH. destruct (decide (key ∈ rest)) as [Hin | Hout].
      * rewrite decide_True by now apply list_elem_of_further. reflexivity.
      * rewrite decide_False; [reflexivity |].
        intros Hin. apply elem_of_cons in Hin as [-> | Hin]; contradiction.
Qed.

Lemma kanbanColumns_lookup (matchesSearch : Task.t -> bool)
    (tasks : list Task.t) (status : string) :
  kanbanColumns matchesSearch tasks !! status
  = if decide (status ∈ TASK_STATUSES)
    then Some (js_sort column_order
                 (List.filter
                    (fun task =>
                       matchesSearch task
                       && String.eqb (normalizeStatus (Task.status task)) status)
                    tasks))
    else None.
Proof.
  unfold kanbanColumns.
  exact (list_to_map_keyed
           (fun status =>
              js_sort column_order
                (List.filter
                   (fun task =>
                      matchesSearch task
                      && String.eqb (normalizeStatus (Task.status task)) status)
                   tasks))
           TASK_STATUSES status).
Qed.

Lemma column_order_flip (a b : Task.t) :
  0 < column_order a b -> column_order b a <= 0.
Proof.
  unfold column_order.
  destruct (Z.eqb_spec (Task.position a) (Task.position b)) as [Heq | Hne];
    destruct (Z.eqb_spec (Task.position b) (Task.position a)); cbn [negb]; lia.
Qed.

Lemma column_order_sorted (a b : Task.t) :
  in_order column_order a b -> column_sorted a b.
Proof.
  unfold in_order, column_order, column_sorted.
  destruct (Z.eqb_spec (Task.position a) (Task.position b)); cbn [negb]; lia.
Qed.

Lemma kanbanColumns_column (matchesSearch : Task.t -> bool)
    (tasks : list Task.t) (status : string) (column : list Task.t) :
  kanbanColumns matchesSearch tasks !! status = Some column ->
  status ∈ TASK_STATUSES
  /\ column ≡ₚ List.filter
                 (fun task =>
                    matchesSearch task
                    && String.eqb (normalizeStatus (Task.status task)) status)
                 tasks
  /\ Sorted (in_order column_order) column.
Proof.
  rewrite kanbanColumns_lookup.
  destruct (decide (status ∈ TASK_STATUSES)) as [Hin |]; [| discriminate].
  intros [= <-]. split; [exact Hin |]. split.
  - apply js_sort_perm.
  - apply js_sort_sorted. exact column_order_flip.
Qed.

(** For a well-typed task list the board has exactly the five columns of
    [TASK_STATUSES]; a column holds exactly the tasks of that status that
    match the search, each as often as it occurs in the task list; and
    every task that matches the search is in the column of its status: no
    task is lost, duplicated or put into a column of another status. *)
Theorem kanbanColumns_content (matchesSearch : Task.t -> bool)
    (tasks : list Task.t) (status : string) :
  valid_statuses tasks ->
  (status ∈ TASK_STATUSES <->
   is_Some (kanbanColumns matchesSearch tasks !! status))
  /\ (forall column : list Task.t,
        kanbanColumns matchesSearch tasks !! status = Some column ->
        column ≡ₚ List.filter
                      (fun task =>
                         matchesSearch task
                         && String.eqb (normalizeStatus (Task.status task))
                              status)
                      tasks
        /\ (forall task : Task.t,
              task ∈ column <->
              task ∈ tasks /\ matchesSearch task = true
              /\ normalizeStatus (Task.status task) = status))
  /\ (forall task : Task.t,
        task ∈ tasks -> matchesSearch task = true ->
        exists column : list Task.t,
          kanbanColumns matchesSearch tasks
            !! normalizeStatus (Task.status task) = Some column
          /\ task ∈ column).
Proof.
  intros Hvalid.
  assert (Hmember : forall key column task,
            kanbanColumns matchesSearch tasks !! key = Some column ->
            task ∈ column <->
            task ∈ tasks /\ matchesSearch task = true
            /\ normalizeStatus (Task.status task) = key).
  { intros key column task Hcolumn.
    apply kanbanColumns_column in Hcolumn as (_ & Hperm & _).
    rewrite Hperm, !list_elem_of_In, filter_In.
    rewrite andb_true_iff, String.eqb_eq. tauto. }
  split; [| split].
  - rewrite kanbanColumns_lookup.
    destruct (decide (status ∈ TASK_STATUSES)) as [Hin | Hout].
    + split; [eauto | auto].
    + split; [contradiction | intros [column Hcolumn]; discriminate].
  - intros column Hcolumn. split; [| intros task; now apply Hmember].
    now apply kanbanColumns_column in Hcolumn as (_ & Hperm & _).
  - intros task Htask Hmatch.
    unfold valid_statuses in Hvalid. rewrite Forall_forall in Hvalid.
    pose proof (Hvalid task Htask) as Hstatus.
    destruct (kanbanColumns matchesSearch tasks
                !! normalizeStatus (Task.status task)) as [column |] eqn:Hcolumn.
    + exists column. split; [reflexivity |].
      apply (Hmember _ _ task Hcolumn). auto.
    + rewrite kanbanColumns_lookup, decide_True in Hcolumn by exact Hstatus.
      discriminate.
Qed.

Lemma spaced_board_valid : valid_statuses spaced_board.
Proof. unfold valid_statuses. apply (bool_decide_unpack _). vm_compute. exact I. Defined.

Lemma tied_board_valid : valid_statuses tied_board.
Proof. unfold valid_statuses. apply (bool_decide_unpack _). vm_compute. exact I. Defined.

Lemma kanbanColumns_content_witness :
  card "D" "inprogress" 500 4
  ∈ [card "D" "inprogress" 500 4]%string.
Proof.
  destruct (kanbanColumns_content all_tasks spaced_board "inprogress"
              spaced_board_valid) as (_ & Hcontent & _).
  apply (Hcontent [card "D" "inprogress" 500 4]%string).
  - vm_compute. reflexivity.
  - split; [| split; reflexivity].
    do 3 apply list_elem_of_further. apply list_elem_of_here.
Defined.

(** Every column of the board of a well-typed task list is in ascending
    order of position, with the newer task first among tasks at the same
    position; in particular the positions never decrease down a column. *)
Theorem kanbanColumns_sorted (matchesSearch : Task.t -> bool)
    (tasks : list Task.t) (status : string) (column : list Task.t) :
  valid_statuses tasks ->
  kanbanColumns matchesSearch tasks !! status = Some column ->
  Sorted column_sorted column
  /\ Sorted Z.le (Task.position <$> column).
Proof.
  intros _ Hcolumn.
  apply kanbanColumns_column in Hcolumn as (_ & _ & Hsorted).
  split.
  - apply Sorted_adjacent. intros i a b Ha Hb.
    apply column_order_sorted.
    exact (Sorted_adjacent_inv _ _ Hsorted i a b Ha Hb).
  - apply (Sorted_fmap _ (in_order column_order) Z.le); [| exact Hsorted].
    intros a b Hab. apply column_order_sorted in Hab.
    unfold column_sorted in Hab. lia.
Qed.

Lemma kanbanColumns_sorted_witness :
  Sorted Z.le
    (Task.position
       <$> [ card "A" "todo" 5 200; card "B" "todo" 5 100;
             card "C" "todo" 9 300 ]%string).
Proof.
  apply (kanbanColumns_sorted all_tasks tied_board "todo"
           [ card "A" "todo" 5 200; card "B" "todo" 5 100;
             card "C" "todo" 9 300 ]%string tied_board_valid).
  vm_compute. reflexivity.
Defined.

(** ** Keyboard navigation *)

Lemma copy_columns_lookup (columns acc : gmap string (list Task.t))
    (statuses : list string) (key : string) :
  foldl (fun map status =>
           match columns !! status with
           | Some tasks => <[status := tasks]> map
           | None => map
           end) acc statuses !! key
  = match (if decide (key ∈ statuses) then columns !! key else None) with
    | Some tasks => Some tasks
    | None => acc !! key
    end.
Proof.
  revert acc. induction statuses as [| status rest IH]; intros acc.
  - cbn [foldl]. now rewrite decide_False by apply not_elem_of_nil.
  - cbn [foldl]. rewrite IH.
    destruct (decide (key ∈ rest)) as [Hin | Hout].
    + rewrite decide_True by now apply list_elem_of_further.
      destruct (columns !! key) as [tasks |] eqn:Hkey; [reflexivity |].
      destruct (columns !! status) as [tasks |] eqn:Hstatus; [| reflexivity].
      rewrite lookup_insert_ne; [reflexivity | congruence].
    + destruct (decide (status = key)) as [-> | Hne].
      * rewrite decide_True by apply list_elem_of_here.
        destruct (columns !! key) as [tasks |]; [| reflexivity].
        now rewrite lookup_insert_eq.
      * rewrite decide_False.
        2:{ intros Hin. apply elem_of_cons in Hin as [-> | Hin]; contradiction. }
        destruct (columns !! status) as [tasks |]; [| reflexivity].
        now rewrite lookup_insert_ne.
Qed.

Lemma visibleTasksByStatus_lookup (columns : gmap string (list Task.t))
    (key : string) :
  visibleTasksByStatus columns !! key
  = if decide (key ∈ TASK_STATUSES) then columns !! key else None.
Proof.
  unfold visibleTasksByStatus. rewrite copy_columns_lookup, lookup_empty.
  destruct (decide (key ∈ TASK_STATUSES)); [| reflexivity].
  now destruct (columns !! key).
Qed.

Lemma first_card_found (visible : gmap string (list Task.t))
    (statuses : list string) (status : string) (task : Task.t)
    (rest : list Task.t) :
  status ∈ statuses -> visible !! status = Some (task :: rest) ->
  is_Some (first_card visible statuses).
Proof.
  intros Hin Hcolumn.
  induction statuses as [| s others IH]; [now apply elem_of_nil in Hin |].
  cbn [first_card].
  destruct (visible !! s) as [[| first column] |] eqn:Hs; [| eauto |].
  - apply elem_of_cons in Hin as [-> | Hin]; [congruence | now apply IH].
  - apply elem_of_cons in Hin as [-> | Hin]; [congruence | now apply IH].
Qed.

(** The card found by the loop is the first card of the first status in
    the list whose column is not empty. *)
Lemma first_card_spec (visible : gmap string (list Task.t))
    (statuses : list string) (task : Task.t) :
  first_card visible statuses = Some task ->
  exists (n : nat) (status : string) (rest : list Task.t),
    statuses !! n = Some status
    /\ visible !! status = Some (task :: rest)
    /\ forall (m : nat) (earlier : string),
         (m < n)%nat -> statuses !! m = Some earlier ->
         default [] (visible !! earlier) = [].
Proof.
  induction statuses as [| s others IH]; [discriminate |].
  cbn [first_card].
  destruct (visible !! s) as [[| first column] |] eqn:Hs.
  - intros Hfound. destruct (IH Hfound) as (n & status & rest & Hn & Hcol & Hall).
    exists (S n), status, rest. split; [exact Hn |]. split; [exact Hcol |].
    intros [| m] earlier Hm Hearlier.
    + cbn in Hearlier. injection Hearlier as <-. now rewrite Hs.
    + apply (Hall m); [lia | exact Hearlier].
  - intros [= <-]. exists 0%nat, s, column.
    split; [reflexivity |]. split; [exact Hs |]. intros m earlier Hm. lia.
  - intros Hfound. destruct (IH Hfound) as (n & status & rest & Hn & Hcol & Hall).
    exists (S n), status, rest. split; [exact Hn |]. split; [exact Hcol |].
    intros [| m] earlier Hm Hearlier.
    + cbn in Hearlier. injection Hearlier as <-. now rewrite Hs.
    + apply (Hall m); [lia | exact Hearlier].
Qed.

(** The board reports visible tasks exactly when a navigation key pressed
    without a selection opens a card. *)
Theorem hasVisibleTasks_iff_navigable (columns : gmap string (list Task.t)) :
  hasVisibleTasks (visibleTasksByStatus columns) = true
  <-> is_Some (selectNextTask None (visibleTasksByStatus columns)).
Proof.
  unfold hasVisibleTasks, selectNextTask. split.
  - intros Hsome. apply existsb_exists in Hsome as (items & Hin & Hlen).
    apply list_elem_of_In, list_elem_of_fmap in Hin as ([key items'] & -> & Hin).
    apply elem_of_map_to_list in Hin. cbn [snd] in Hlen.
    destruct items' as [| task rest]; [discriminate |].
    apply (first_card_found _ _ key task rest); [| exact Hin].
    rewrite visibleTasksByStatus_lookup in Hin.
    destruct (decide (key ∈ TASK_STATUSES)); [assumption | discriminate].
  - intros [task Hfound].
    apply first_card_spec in Hfound as (n & status & rest & _ & Hcolumn & _).
    apply existsb_exists. exists (task :: rest). split; [| reflexivity].
    apply list_elem_of_In, list_elem_of_fmap. exists (status, task :: rest).
    split; [reflexivity |]. now apply elem_of_map_to_list.
Qed.

Section FindIndex.
Context {A : Type} (p : A -> bool).
Implicit Types (a : list A) (i : Z) (n : nat).

Lemma findIndex_from_first a i n (x : A) :
  a !! n = Some x -> p x = true ->
  (forall (m : nat) (y : A), (m < n)%nat -> a !! m = Some y -> p y = false) ->
  findIndex_from p a i = i + Z.of_nat n.
Proof.
  revert i n. induction a as [| y rest IH]; intros i n Hx Hp Hfirst;
    [discriminate |].
  cbn [findIndex_from]. destruct n as [| n].
  - cbn in Hx. injection Hx as ->. rewrite Hp. lia.
  - rewrite (Hfirst 0%nat y) by (lia || reflexivity).
    rewrite (IH (i + 1) n); [lia | exact Hx | exact Hp |].
    intros m z Hm Hz. apply (Hfirst (S m)); [lia | exact Hz].
Qed.

Lemma findIndex_from_hit a i :
  0 <= i -> i <= findIndex_from p a i ->
  exists (x : A),
    a !! Z.to_nat (findIndex_from p a i - i) = Some x /\ p x = true.
Proof.
  revert i. induction a as [| y rest IH]; intros i Hstart;
    cbn [findIndex_from]; [lia |].
  destruct (p y) eqn:Hy.
  - intros _. exists y. rewrite Z.sub_diag. auto.
  - intros Hle.
    destruct (findIndex_from_bounds p rest (i + 1)) as [Hnone | Hin];
      [lia |].
    destruct (IH (i + 1)) as (x & Hx & Hp); [lia | lia |].
    exists x. split; [| exact Hp].
    replace (Z.to_nat (findIndex_from p rest (i + 1) - i))
      with (S (Z.to_nat (findIndex_from p rest (i + 1) - (i + 1))))
      by lia.
    exact Hx.
Qed.

Lemma findIndex_hit a :
  0 <= findIndex p a ->
  exists (x : A), a !! Z.to_nat (findIndex p a) = Some x /\ p x = true.
Proof.
  intros Hfound. unfold findIndex in *.
  destruct (findIndex_from_hit a 0) as (x & Hx & Hp); [lia | lia |].
  rewrite Z.sub_0_r in Hx. eauto.
Qed.

Lemma findIndex_first a n (x : A) :
  a !! n = Some x -> p x = true ->
  (forall (m : nat) (y : A), (m < n)%nat -> a !! m = Some y -> p y = false) ->
  findIndex p a = Z.of_nat n.
Proof.
  intros Hx Hp Hfirst. unfold findIndex.
  now rewrite (findIndex_from_first a 0 n x).
Qed.

End FindIndex.

Lemma NoDup_ids_filter (keep : Task.t -> bool) (tasks : list Task.t) :
  NoDup (Task.id <$> tasks) -> NoDup (Task.id <$> List.filter keep tasks).
Proof.
  induction tasks as [| task rest IH]; [auto |].
  cbn. intros Hnodup. apply NoDup_cons in Hnodup as [Hfresh Hrest].
  destruct (keep task); [| now apply IH].
  cbn. apply NoDup_cons. split; [| now apply IH].
  intros Hin. apply Hfresh.
  apply list_elem_of_fmap in Hin as (other & Hid & Hother).
  apply list_elem_of_In, filter_In in Hother as [Hother _].
  apply list_elem_of_fmap. exists other. split; [exact Hid |].
  now apply list_elem_of_In.
Qed.

Lemma findIndex_unique_id (column : list Task.t) (n : nat) (task : Task.t) :
  NoDup (Task.id <$> column) -> column !! n = Some task ->
  findIndex (fun t => String.eqb (Task.id t) (Task.id task)) column
  = Z.of_nat n.
Proof.
  intros Hnodup Htask.
  apply (findIndex_first _ column n task Htask); [apply String.eqb_refl |].
  intros m other Hm Hother.
  apply String.eqb_neq. intros Hid.
  assert (m = n); [| lia].
  apply (NoDup_lookup (Task.id <$> column) m n (Task.id task) Hnodup).
  - rewrite list_lookup_fmap, Hother. cbn. now rewrite Hid.
  - now rewrite list_lookup_fmap, Htask.
Qed.

Lemma visible_column (matchesSearch : Task.t -> bool) (tasks : list Task.t)
    (key : string) (column : list Task.t) :
  NoDup (Task.id <$> tasks) ->
  visibleTasksByStatus (kanbanColumns matchesSearch tasks) !! key
  = Some column ->
  NoDup (Task.id <$> column)
  /\ forall task, task ∈ column -> normalizeStatus (Task.status task) = key.
Proof.
  intros Hnodup Hcolumn.
  rewrite visibleTasksByStatus_lookup in Hcolumn.
  destruct (decide (key ∈ TASK_STATUSES)); [| discriminate].
  apply kanbanColumns_column in Hcolumn as (_ & Hperm & _).
  split.
  - rewrite Hperm. now apply NoDup_ids_filter.
  - intros task Htask. rewrite Hperm in Htask.
    apply list_elem_of_In, filter_In in Htask as [_ Hkeep].
    apply andb_true_iff in Hkeep as [_ Hkey]. now apply String.eqb_eq.
Qed.

(** On a board whose tasks have distinct identifiers, moving the selection
    down and then up again returns to the card one started from, and the
    card in between lies in the same column. *)
Theorem selectPreviousTask_undoes_next (matchesSearch : Task.t -> bool)
    (tasks : list Task.t) (selected next : Task.t) :
  let visible := visibleTasksByStatus (kanbanColumns matchesSearch tasks) in
  valid_statuses tasks ->
  NoDup (Task.id <$> tasks) ->
  selectNextTask (Some selected) visible = Some next ->
  normalizeStatus (Task.status next) = normalizeStatus (Task.status selected)
  /\ exists back : Task.t,
       selectPreviousTask (Some next) visible = Some back
       /\ Task.id back = Task.id selected.
Proof.
  intros visible _ Hnodup. unfold selectNextTask, selectPreviousTask.
  cbn zeta.
  set (key := normalizeStatus (Task.status selected)).
  destruct (visible !! key) as [column |] eqn:Hcolumn.
  2:{ cbn [default from_option]. unfold findIndex. cbn [findIndex_from].
      cbn. discriminate. }
  cbn [default from_option id].
  set (index := findIndex
                  (fun task => String.eqb (Task.id task) (Task.id selected))
                  column).
  destruct (Z.leb_spec 0 index) as [Hfound |]; [| discriminate].
  destruct (Z.ltb_spec index (js_length column - 1)) as [Hinner |];
    [| discriminate].
  cbn [andb]. intros Hnext.
  apply js_index_lookup in Hnext as [_ Hnext].
  destruct (visible_column _ _ _ _ Hnodup Hcolumn) as [Hids Hstatus].
  assert (Hkey : normalizeStatus (Task.status next) = key)
    by (apply Hstatus; exact (list_elem_of_lookup_2 _ _ _ Hnext)).
  split; [exact Hkey |].
  rewrite Hkey, Hcolumn. cbn [default from_option id].
  rewrite (findIndex_unique_id column (Z.to_nat (index + 1)) next Hids Hnext).
  destruct (Z.ltb_spec 0 (Z.of_nat (Z.to_nat (index + 1)))); [| lia].
  destruct (findIndex_hit
              (fun task => String.eqb (Task.id task) (Task.id selected))
              column Hfound) as (back & Hback & Hid).
  fold index in Hback.
  exists back. split; [| now apply String.eqb_eq].
  replace (Z.of_nat (Z.to_nat (index + 1)) - 1)
    with (Z.of_nat (Z.to_nat index)) by lia.
  now rewrite js_index_nat.
Qed.

Lemma selectPreviousTask_undoes_next_witness :
  exists back : Task.t,
    selectPreviousTask (Some (card "B" "todo" 2000 2))
      (visibleTasksByStatus (kanbanColumns all_tasks spaced_board))
    = Some back
    /\ Task.id back = Task.id (card "A" "todo" 1000 1).
Proof.
  apply (selectPreviousTask_undoes_next all_tasks spaced_board
           (card "A" "todo" 1000 1) (card "B" "todo" 2000 2)
           spaced_board_valid).
  - apply (bool_decide_unpack _). vm_compute. exact I.
  - vm_compute. reflexivity.
Defined.

(** The other way round: moving the selection up and then down again
    returns to the card one started from. *)
Theorem selectNextTask_undoes_previous (matchesSearch : Task.t -> bool)
    (tasks : list Task.t) (selected previous : Task.t) :
  let visible := visibleTasksByStatus (kanbanColumns matchesSearch tasks) in
  valid_statuses tasks ->
  NoDup (Task.id <$> tasks) ->
  selectPreviousTask (Some selected) visible = Some previous ->
  normalizeStatus (Task.status previous)
  = normalizeStatus (Task.status selected)
  /\ exists back : Task.t,
       selectNextTask (Some previous) visible = Some back
       /\ Task.id back = Task.id selected.
Proof.
  intros visible _ Hnodup. unfold selectNextTask, selectPreviousTask.
  cbn zeta.
  set (key := normalizeStatus (Task.status selected)).
  destruct (visible !! key) as [column |] eqn:Hcolumn.
  2:{ cbn [default from_option]. unfold findIndex. cbn [findIndex_from].
      cbn. discriminate. }
  cbn [default from_option id].
  set (index := findIndex
                  (fun task => String.eqb (Task.id task) (Task.id selected))
                  column).
  destruct (Z.ltb_spec 0 index) as [Hfound |]; [| discriminate].
  intros Hprevious.
  apply js_index_lookup in Hprevious as [_ Hprevious].
  destruct (visible_column _ _ _ _ Hnodup Hcolumn) as [Hids Hstatus].
  assert (Hkey : normalizeStatus (Task.status previous) = key)
    by (apply Hstatus; exact (list_elem_of_lookup_2 _ _ _ Hprevious)).
  split; [exact Hkey |].
  rewrite Hkey, Hcolumn. cbn [default from_option id].
  rewrite (findIndex_unique_id column (Z.to_nat (index - 1)) previous Hids
             Hprevious).
  assert (Hlen : index < js_length column)
    by (apply findIndex_found; fold index; lia).
  destruct (Z.leb_spec 0 (Z.of_nat (Z.to_nat (index - 1)))); [| lia].
  destruct (Z.ltb_spec (Z.of_nat (Z.to_nat (index - 1)))
              (js_length column - 1)); [| lia].
  cbn [andb].
  destruct (findIndex_hit
              (fun task => String.eqb (Task.id task) (Task.id selected))
              column ltac:(fold index; lia)) as (back & Hback & Hid).
  fold index in Hback.
  exists back. split; [| now apply String.eqb_eq].
  replace (Z.of_nat (Z.to_nat (index - 1)) + 1)
    with (Z.of_nat (Z.to_nat index)) by lia.
  now rewrite js_index_nat.
Qed.

Lemma selectNextTask_undoes_previous_witness :
  exists back : Task.t,
    selectNextTask (Some (card "B" "todo" 2000 2))
      (visibleTasksByStatus (kanbanColumns all_tasks spaced_board))
    = Some back
    /\ Task.id back = Task.id (card "C" "todo" 3000 3).
Proof.
  apply (selectNextTask_undoes_previous all_tasks spaced_board
           (card "C" "todo" 3000 3) (card "B" "todo" 2000 2)
           spaced_board_valid).
  - apply (bool_decide_unpack _). vm_compute. exact I.
  - vm_compute. reflexivity.
Defined.

Lemma status_index_bounds (selected : Task.t) :
  -1 <= status_index selected < js_length TASK_STATUSES.
Proof.
  unfold status_index, findIndex. cbn zeta.
  match goal with
  | |- context [findIndex_from ?p ?a 0] =>
      destruct (findIndex_from_bounds p a 0) as [-> | Hin]
  end; [unfold js_length; cbn; lia | lia].
Qed.

(** Moving the selection one column to the right opens the first card of
    the nearest column to the right that has a card: every column in
    between is empty, and nothing is opened when no such column exists. *)
Theorem selectNextColumn_nearest (visible : gmap string (list Task.t))
    (selected task : Task.t) :
  selectNextColumn (Some selected) visible = Some task ->
  exists (j : nat) (status : string) (rest : list Task.t),
    status_index selected < Z.of_nat j
    /\ TASK_STATUSES !! j = Some status
    /\ visible !! status = Some (task :: rest)
    /\ forall (k : nat) (between : string),
         status_index selected < Z.of_nat k -> (k < j)%nat ->
         TASK_STATUSES !! k = Some between ->
         default [] (visible !! between) = [].
Proof.
  unfold selectNextColumn, statuses_after. intros Hfound.
  pose proof (status_index_bounds selected) as Hbounds.
  apply first_card_spec in Hfound as (n & status & rest & Hn & Hcol & Hall).
  rewrite lookup_drop in Hn.
  exists (Z.to_nat (status_index selected + 1) + n)%nat, status, rest.
  split; [lia |]. split; [exact Hn |]. split; [exact Hcol |].
  intros k between Hright Hleft Hk.
  apply (Hall (k - Z.to_nat (status_index selected + 1))%nat); [lia |].
  rewrite lookup_drop.
  now replace (Z.to_nat (status_index selected + 1)
               + (k - Z.to_nat (status_index selected + 1)))%nat with k by lia.
Qed.

Lemma selectNextColumn_nearest_witness :
  exists (j : nat) (status : string) (rest : list Task.t),
    status_index (card "A" "todo" 1000 1) < Z.of_nat j
    /\ TASK_STATUSES !! j = Some status
    /\ visibleTasksByStatus (kanbanColumns all_tasks spaced_board) !! status
       = Some (card "D" "inprogress" 500 4 :: rest)
    /\ forall (k : nat) (between : string),
         status_index (card "A" "todo" 1000 1) < Z.of_nat k -> (k < j)%nat ->
         TASK_STATUSES !! k = Some between ->
         default []
           (visibleTasksByStatus (kanbanColumns all_tasks spaced_board)
              !! between) = [].
Proof.
  apply (selectNextColumn_nearest
           (visibleTasksByStatus (kanbanColumns all_tasks spaced_board))
           (card "A" "todo" 1000 1) (card "D" "inprogress" 500 4)).
  vm_compute. reflexivity.
Defined.

(** Moving the selection one column to the left opens the first card of
    the nearest column to the left that has a card; from the first column,
    or from a task whose status is not on the board, nothing is opened. *)
Theorem selectPreviousColumn_nearest (visible : gmap string (list Task.t))
    (selected task : Task.t) :
  selectPreviousColumn (Some selected) visible = Some task ->
  exists (j : nat) (status : string) (rest : list Task.t),
    Z.of_nat j < status_index selected
    /\ TASK_STATUSES !! j = Some status
    /\ visible !! status = Some (task :: rest)
    /\ forall (k : nat) (between : string),
         (j < k)%nat -> Z.of_nat k < status_index selected ->
         TASK_STATUSES !! k = Some between ->
         default [] (visible !! between) = [].
Proof.
  unfold selectPreviousColumn, statuses_before. intros Hfound.
  pose proof (status_index_bounds selected) as Hbounds.
  set (c := Z.to_nat (status_index selected)) in *.
  assert (Hc : length (take c TASK_STATUSES) = c).
  { apply length_take_le. unfold js_length in Hbounds. lia. }
  apply first_card_spec in Hfound as (n & status & rest & Hn & Hcol & Hall).
  assert (Hnc : (n < c)%nat).
  { apply lookup_lt_Some in Hn. rewrite length_reverse, Hc in Hn. exact Hn. }
  rewrite reverse_lookup, Hc, lookup_take_lt in Hn by (rewrite ?Hc; lia).
  exists (c - S n)%nat, status, rest.
  split; [lia |]. split; [exact Hn |]. split; [exact Hcol |].
  intros k between Hleft Hright Hk.
  apply (Hall (c - S k)%nat); [lia |].
  rewrite reverse_lookup, Hc, lookup_take_lt by (rewrite ?Hc; lia).
  now replace (c - S (c - S k))%nat with k by lia.
Qed.

Lemma selectPreviousColumn_nearest_witness :
  exists (j : nat) (status : string) (rest : list Task.t),
    Z.of_nat j < status_index (card "D" "inprogress" 500 4)
    /\ TASK_STATUSES !! j = Some status
    /\ visibleTasksByStatus (kanbanColumns all_tasks spaced_board) !! status
       = Some (card "A" "todo" 1000 1 :: rest)
    /\ forall (k : nat) (between : string),
         (j < k)%nat -> Z.of_nat k < status_index (card "D" "inprogress" 500 4) ->
         TASK_STATUSES !! k = Some between ->
         default []
           (visibleTasksByStatus (kanbanColumns all_tasks spaced_board)
              !! between) = [].
Proof.
  apply (selectPreviousColumn_nearest
           (visibleTasksByStatus (kanbanColumns all_tasks spaced_board))
           (card "D" "inprogress" 500 4) (card "A" "todo" 1000 1)).
  vm_compute. reflexivity.
Defined.

(** ** Cycling the view *)

Lemma parseMode_cases (rawMode : option string) :
  parseMode rawMode = None
  \/ parseMode rawMode = Some "preview"%string
  \/ parseMode rawMode = Some "diffs"%string.
Proof.
  destruct rawMode as [raw |]; [| now left]. unfold parseMode.
  destruct (String.eqb_spec raw "preview") as [-> | _]; [now right; left |].
  destruct (String.eqb_spec raw "diffs") as [-> | _]; [now right; right |].
  now left.
Qed.

Lemma indexOf_bounds (mode : option string) :
  -1 <= indexOf mode view_order < 3.
Proof.
  unfold indexOf, findIndex.
  destruct (findIndex_from_bounds
              (fun entry => bool_decide (entry = mode)) view_order 0)
    as [-> | Hin]; [lia |].
  change (js_length view_order) with 3 in Hin. lia.
Qed.

(** Cycling never leaves the three views: whatever the current mode, the
    mode handed to [setMode] is the plain view, [preview] or [diffs].  For
    a mode read from the URL, a step forward and a step backward cancel
    each other, and three steps forward come back to the start. *)
Theorem cycleView_cycles (rawMode : option string) (direction : Direction) :
  (exists next : option string,
     cycleView rawMode direction = Some next /\ next ∈ view_order)
  /\ cycle_steps (parseMode rawMode) [forward; backward]
     = Some (parseMode rawMode)
  /\ cycle_steps (parseMode rawMode) [backward; forward]
     = Some (parseMode rawMode)
  /\ cycle_steps (parseMode rawMode) [forward; forward; forward]
     = Some (parseMode rawMode).
Proof.
  split.
  - pose proof (indexOf_bounds rawMode) as Hbounds.
    unfold cycleView. cbn zeta.
    assert (Hcases : indexOf rawMode view_order = -1
                     \/ indexOf rawMode view_order = 0
                     \/ indexOf rawMode view_order = 1
                     \/ indexOf rawMode view_order = 2) by lia.
    destruct Hcases as [-> | [-> | [-> | ->]]]; destruct direction; cbn;
      eexists; (split; [reflexivity |]);
      apply (bool_decide_unpack _); vm_compute; exact I.
  - destruct (parseMode_cases rawMode) as [-> | [-> | ->]];
      repeat split; vm_compute; reflexivity.
Qed.

(** ** The automatic review *)

Lemma append_nonempty (s t : string) :
  s <> EmptyString -> (s ++ t)%string <> EmptyString.
Proof. destruct s; [contradiction | discriminate]. Qed.

Lemma js_join_nonempty (sep first : string) (rest : list string) :
  first <> EmptyString -> js_join sep (first :: rest) <> EmptyString.
Proof.
  cbn [js_join]. revert first.
  induction rest as [| part rest IH]; intros first Hfirst; [exact Hfirst |].
  cbn [fold_left]. apply IH. now apply append_nonempty.
Qed.

Lemma js_length_cons_nonzero {A : Type} (x : A) (a : list A) :
  (js_length (x :: a) =? 0) = false.
Proof. unfold js_length. cbn [length]. apply Z.eqb_neq. lia. Qed.

Lemma js_length_nil_zero {A : Type} : (js_length (@nil A) =? 0) = true.
Proof. reflexivity. Qed.

Lemma truthy_nonempty (s : string) :
  truthy (Some s) = true <-> s <> EmptyString.
Proof. destruct s; cbn; split; congruence. Qed.

(** The review request is never empty: it has between one and three parts,
    none of them empty, with the stock sentence standing in when no
    option adds a part; and a non-empty additional prompt is always its
    last part. *)
Theorem reviewPrompt_never_empty (settings : AutoReviewSettings)
    (pm_docs : option string) :
  reviewPrompt settings pm_docs <> EmptyString
  /\ (1 <= length (promptParts settings pm_docs) <= 3)%nat
  /\ Forall (fun part => part <> EmptyString) (promptParts settings pm_docs)
  /\ (includePmReview settings && truthy pm_docs = false ->
      includeCodeReview settings = false ->
      additionalPrompt settings = EmptyString ->
      promptParts settings pm_docs = [default_review_request])
  /\ (additionalPrompt settings <> EmptyString ->
      last (promptParts settings pm_docs) = Some (additionalPrompt settings)).
Proof.
  assert (Hparts :
    (1 <= length (promptParts settings pm_docs) <= 3)%nat
    /\ Forall (fun part => part <> EmptyString) (promptParts settings pm_docs)).
  { unfold promptParts.
    destruct (includePmReview settings && truthy pm_docs),
             (includeCodeReview settings),
             (truthy (Some (additionalPrompt settings))) eqn:Hextra;
      cbn [app]; rewrite ?js_length_cons_nonzero, ?js_length_nil_zero;
      cbn; (split; [lia |]);
      repeat (apply Forall_cons; split);
      first [ now apply Forall_nil
            | now apply truthy_nonempty
            | unfold pm_review_request, code_review_request,
                default_review_request; discriminate ]. }
  destruct Hparts as [Hlen Hall].
  split.
  { unfold reviewPrompt.
    destruct (promptParts settings pm_docs) as [| first rest];
      [cbn in Hlen; lia |].
    apply js_join_nonempty. now apply Forall_cons in Hall as [Hfirst _]. }
  split; [exact Hlen |]. split; [exact Hall |]. split.
  - intros Hpm Hcode Hextra. unfold promptParts.
    rewrite Hpm, Hcode, Hextra. reflexivity.
  - intros Hextra. apply truthy_nonempty in Hextra.
    unfold promptParts. rewrite Hextra.
    destruct (includePmReview settings && truthy pm_docs),
             (includeCodeReview settings);
      cbn [app]; rewrite js_length_cons_nonzero; reflexivity.
Qed.

Lemma reviewPrompt_never_empty_witness :
  promptParts {| includePmReview := true; includeCodeReview := false;
                 additionalPrompt := EmptyString |} None
  = [default_review_request].
Proof.
  apply (reviewPrompt_never_empty
           {| includePmReview := true; includeCodeReview := false;
              additionalPrompt := EmptyString |} None); reflexivity.
Defined.

Lemma newest_first_flip (a b : Workspace.t) :
  0 < newest_first a b -> newest_first b a <= 0.
Proof. unfold newest_first. lia. Qed.

(** The workspace reviewed is one of the task's workspaces, none of which
    was created later; and one is found whenever the task has any. *)
Theorem latestWorkspace_is_newest (workspaces : list Workspace.t) :
  (workspaces <> [] <-> is_Some (latestWorkspace workspaces))
  /\ forall latest : Workspace.t,
       latestWorkspace workspaces = Some latest ->
       latest ∈ workspaces
       /\ forall other : Workspace.t,
            other ∈ workspaces ->
            Workspace.created_at other <= Workspace.created_at latest.
Proof.
  unfold latestWorkspace.
  pose proof (js_sort_perm newest_first workspaces) as Hperm.
  pose proof (js_sort_sorted newest_first newest_first_flip workspaces)
    as Hsorted.
  destruct workspaces as [| w rest].
  - split; [split; [congruence | intros [x Hx]; discriminate] | discriminate].
  - replace (js_length (w :: rest) =? 0) with false
      by (unfold js_length; cbn [length]; symmetry; apply Z.eqb_neq; lia).
    rewrite js_index_first.
    destruct (js_sort newest_first (w :: rest)) as [| first sorted] eqn:Hsort.
    { apply Permutation_nil_l in Hperm. discriminate. }
    cbn [head]. split; [split; [eauto | discriminate] |].
    intros latest [= <-]. split.
    + rewrite <- Hperm. apply list_elem_of_here.
    + intros other Hother. rewrite <- Hperm in Hother.
      apply Sorted_StronglySorted in Hsorted.
      2:{ intros a b c. unfold in_order, newest_first. lia. }
      apply StronglySorted_inv in Hsorted as [_ Hall].
      apply elem_of_cons in Hother as [-> | Hother]; [lia |].
      rewrite Forall_forall in Hall.
      specialize (Hall other Hother).
      unfold in_order, newest_first in Hall. lia.
Qed.

Lemma latestWorkspace_is_newest_witness :
  Workspace.created_at (Workspace.mk "w1" 10)
  <= Workspace.created_at (Workspace.mk "w2" 30).
Proof.
  destruct (latestWorkspace_is_newest
              [Workspace.mk "w1" 10; Workspace.mk "w2" 30;
               Workspace.mk "w3" 20]) as [_ Hnewest].
  apply (Hnewest (Workspace.mk "w2" 30)).
  - vm_compute. reflexivity.
  - apply list_elem_of_here.
Defined.

(** ** The flattened board *)

Lemma partition_step (keep other : Task.t -> bool) (tasks : list Task.t) :
  (forall task, keep task = true -> other task = false) ->
  List.filter keep tasks ++ List.filter other tasks
  ≡ₚ List.filter (fun task => keep task || other task) tasks.
Proof.
  intros Hdisjoint. induction tasks as [| task rest IH]; [reflexivity |].
  cbn [List.filter].
  destruct (keep task) eqn:Hkeep.
  - rewrite (Hdisjoint task Hkeep). cbn. now rewrite IH.
  - destruct (other task); cbn; [| exact IH].
    rewrite <- Permutation_middle. now rewrite IH.
Qed.

Lemma partition_by_status (matchesSearch : Task.t -> bool)
    (statuses : list string) (tasks : list Task.t) :
  NoDup statuses ->
  concat (map (fun status => List.filter (in_column matchesSearch status) tasks)
              statuses)
  ≡ₚ List.filter
       (fun task =>
          matchesSearch task
          && bool_decide (normalizeStatus (Task.status task) ∈ statuses))
       tasks.
Proof.
  induction 1 as [| status rest Hfresh Hrest IH]; cbn [map concat].
  - clear. induction tasks as [| task tasks IH]; [reflexivity |].
    cbn [List.filter]. rewrite bool_decide_eq_false_2 by apply not_elem_of_nil.
    now rewrite andb_false_r.
  - rewrite IH, partition_step.
    + apply Permutation_refl'. apply filter_ext. intros task.
      unfold in_column.
      destruct (matchesSearch task); [| reflexivity]. cbn [andb].
      destruct (String.eqb_spec (normalizeStatus (Task.status task)) status)
        as [Heq | Hne]; cbn [orb].
      * symmetry. apply bool_decide_eq_true_2. rewrite Heq.
        apply list_elem_of_here.
      * apply bool_decide_ext. rewrite elem_of_cons. tauto.
    + intros task Hkeep. unfold in_column in Hkeep.
      apply andb_true_iff in Hkeep as [_ Hstatus].
      apply String.eqb_eq in Hstatus.
      rewrite bool_decide_eq_false_2; [apply andb_false_r |].
      now rewrite Hstatus.
Qed.

Lemma board_columns (matchesSearch : Task.t -> bool) (tasks : list Task.t)
    (statuses : list string) :
  (forall status, status ∈ statuses -> status ∈ TASK_STATUSES) ->
  concat (omap (fun status => kanbanColumns matchesSearch tasks !! status)
               statuses)
  ≡ₚ concat (map (fun status =>
                    List.filter (in_column matchesSearch status) tasks)
                 statuses).
Proof.
  induction statuses as [| status rest IH]; intros Hknown; [reflexivity |].
  cbn [omap list_omap map concat].
  rewrite kanbanColumns_lookup, decide_True
    by (apply Hknown, list_elem_of_here).
  cbn [concat]. rewrite js_sort_perm. apply Permutation_app; [reflexivity |].
  apply IH. intros other Hother. now apply Hknown, list_elem_of_further.
Qed.

(** For a well-typed task list the flattened board lists exactly the tasks
    that match the search, each once for every time it occurs in the task
    list: across all columns no task is lost and none is shown twice. *)
Theorem allTasks_permutation (matchesSearch : Task.t -> bool)
    (tasks : list Task.t) :
  valid_statuses tasks ->
  allTasks (kanbanColumns matchesSearch tasks)
  ≡ₚ List.filter matchesSearch tasks.
Proof.
  intros Hvalid. unfold allTasks.
  rewrite board_columns by auto.
  rewrite partition_by_status
    by (apply (bool_decide_unpack _); vm_compute; exact I).
  apply Permutation_refl'. apply filter_ext_in. intros task Htask.
  unfold valid_statuses in Hvalid. rewrite Forall_forall in Hvalid.
  rewrite bool_decide_eq_true_2; [apply andb_true_r |].
  now apply Hvalid, list_elem_of_In.
Qed.

Lemma allTasks_permutation_witness :
  allTasks (kanbanColumns all_tasks spaced_board)
  ≡ₚ List.filter all_tasks spaced_board.
Proof.
  apply (allTasks_permutation all_tasks spaced_board spaced_board_valid).
Defined.

Lemma calculateNewPosition_below_next_iff_witness :
  1000 < calculateNewPosition (Some 1000) (Some 1001)
  /\ (calculateNewPosition (Some 1000) (Some 1001) < 1001
      <-> 1001 - 1000 >= 2).
Proof.
  apply (calculateNewPosition_below_next_iff 1000 1001);
    unfold in_range, MIN_POSITION, MAX_POSITION; lia.
Defined.

Lemma hasVisibleTasks_iff_navigable_witness :
  is_Some
    (selectNextTask None
       (visibleTasksByStatus (kanbanColumns all_tasks spaced_board))).
Proof.
  apply (hasVisibleTasks_iff_navigable (kanbanColumns all_tasks spaced_board)).
  vm_compute. reflexivity.
Defined.
